(** * reddit-scanner: the dedup-and-ingest pipeline of [src/index.ts]

    A shallow embedding of the scheduled worker: the key-value helpers
    ([getPostsFromKV], [storePostInKV], [cleanupOldPosts]), the notifier
    ([sendDiscordNotification]) and the orchestrator ([scheduled]).

    The worker is asynchronous but strictly sequential (every call is
    awaited), so it is embedded in a state-and-exception monad over a
    [World]: the contents of the KV namespace, the webhook requests issued
    so far, the console, and counters that index the behaviour of the
    outside (which KV request rejects, what [Date.now()] reads, how the
    webhook answers).

    Two facts of the platform shape the model. A call of [kv.list] returns
    one page of at most 1000 keys, in the lexicographic order of their
    bytes, and the worker never asks for a second page. JavaScript measures
    strings in UTF-16 code units, while the texts here are byte strings in
    UTF-8. *)

From Stdlib Require Import ZArith List String Ascii Bool Lia.
From stdpp Require Import gmap strings list fin_maps pretty sorting.

Local Open Scope Z_scope.
Local Open Scope string_scope.
Local Open Scope list_scope.

(** ** Data model *)

(** [interface RedditPost]. JavaScript numbers are modelled as integers:
    the feed's timestamps and scores and [Date.now()] are integral and far
    below 2^53, where double arithmetic is exact. *)
Module RedditPost.
Record t : Type := mk {
  id : string;
  title : string;
  permalink : string;
  created_utc : Z;
  author : string;
  url : string;
  selftext : option string;
  score : Z
}.
End RedditPost.

(** [interface StoredPost]. *)
Module StoredPost.
Record t : Type := mk {
  post_id : string;
  title : string;
  permalink : string;
  created_utc : Z;
  author : string;
  url : string;
  selftext : option string;
  score : Z;
  stored_at : Z
}.
End StoredPost.

(** [interface Env]; the [REDDIT_KV] binding is the [kv] field of the
    [World] below. *)
Record Env : Type := {
  REDDIT_CLIENT_ID : string;
  REDDIT_CLIENT_SECRET : string;
  DISCORD_WEBHOOK_URL : option string
}.

(** The text held under a key of the namespace, seen through
    [kv.get(key, "json")]: the serialisation of a [StoredPost] (what
    [storePostInKV] writes), a JSON text that parses to a falsy value such as
    [null], or a text that is not JSON, on which the read rejects. The casts
    [postData as StoredPost] of the source assume that no other shape
    occurs. *)
Inductive kv_text : Type :=
  | JsonPost (p : StoredPost.t)
  | JsonNull
  | NotJson.

(** The body of the webhook request. *)
Record EmbedAuthor : Type := { ea_name : string; ea_url : string; ea_icon_url : string }.
Record EmbedField : Type := { ef_name : string; ef_value : string; ef_inline : bool }.
Record EmbedFooter : Type := { fo_text : string; fo_icon_url : string }.

(** [timestamp] is [postDate.toISOString()]; the instant is kept as epoch
    milliseconds instead of its ISO-8601 rendering. *)
Record DiscordEmbed : Type := {
  em_author : EmbedAuthor;
  em_title : string;
  em_url : string;
  em_description : string;
  em_color : Z;
  em_fields : list EmbedField;
  em_thumbnail : string;
  em_footer : EmbedFooter;
  em_timestamp : Z;
  em_image : option string
}.

Record DiscordMessage : Type := {
  dm_username : string;
  dm_avatar_url : string;
  dm_content : string;
  dm_embeds : list DiscordEmbed
}.

(** What a rejected promise or a throwing call carries. *)
Inductive error : Type :=
  | KVError          (* a request to the KV service rejected *)
  | JsonSyntaxError  (* kv.get(key, "json") on a text that is not JSON *)
  | FetchError       (* fetch, or reading the response body, rejected *)
  | RangeError       (* toISOString() of an invalid Date *)
  | FeedError.       (* reddit.getPosts() rejected *)

(** One constructor per [console.log] / [console.error] call site. *)
Inductive log_line : Type :=
  | LogNoWebhook
  | LogSending (title : string)
  | ErrWebhookFailed (status : Z) (statusText : string)
  | ErrWebhookBody (errorText : string)
  | LogSent (title : string)
  | ErrSending (e : error)
  | LogCron (cron : string)
  | LogFetched (n : nat)
  | LogStoredCount (n : nat)
  | LogNewCount (n : nat)
  | LogPostTitle (title : string)
  | LogPostLink (link : string)
  | ErrScheduled (e : error)
  | LogFetchingKV
  | LogRetrieved (n : nat)
  | ErrFetchingKV (e : error)
  | LogStoring (title : string)
  | LogStored (id : string)
  | ErrStore (id : string) (e : error)
  | LogCleaning (maxAgeDays : Z)
  | LogDeleted (title : string)
  | LogCleanupComplete (deletedCount : nat)
  | ErrCleanup (e : error).

(** ** The outside and the world *)

(** How [fetch(webhookUrl, ...)] settles: it rejects, or resolves to a
    response whose body text may itself fail to be read. *)
Record Response : Type := {
  ok : bool;
  status : Z;
  statusText : string;
  body_text : option string   (* [None]: [response.text()] rejects *)
}.

Inductive fetch_reply : Type :=
  | FetchRejects
  | FetchResolves (response : Response).

(** The behaviour of the services the worker talks to, fixed in advance:
    the [n]-th request to the KV service rejects when [kv_rejects n], the
    [n]-th call of [Date.now()] reads [date_now n], and the [n]-th webhook
    request settles as [webhook_reply n]. *)
Record Outside : Type := {
  kv_rejects : nat -> bool;
  date_now : nat -> Z;
  webhook_reply : nat -> fetch_reply
}.

Record World : Type := mkWorld {
  kv : gmap string kv_text;
  kv_calls : nat;
  now_calls : nat;
  fetch_calls : nat;
  outbox : list (string * DiscordMessage);
  console : list log_line
}.

Definition set_kv (f : gmap string kv_text -> gmap string kv_text) (w : World) : World :=
  mkWorld (f (kv w)) (kv_calls w) (now_calls w) (fetch_calls w) (outbox w) (console w).

Definition count_kv_call (w : World) : World :=
  mkWorld (kv w) (S (kv_calls w)) (now_calls w) (fetch_calls w) (outbox w) (console w).

Definition count_now_call (w : World) : World :=
  mkWorld (kv w) (kv_calls w) (S (now_calls w)) (fetch_calls w) (outbox w) (console w).

Definition post_request (url : string) (body : DiscordMessage) (w : World) : World :=
  mkWorld (kv w) (kv_calls w) (now_calls w) (S (fetch_calls w))
          (outbox w ++ [(url, body)]) (console w).

Definition print (l : log_line) (w : World) : World :=
  mkWorld (kv w) (kv_calls w) (now_calls w) (fetch_calls w) (outbox w) (console w ++ [l]).

(** ** The monad of awaited calls *)

Inductive outcome (A : Type) : Type :=
  | Ret (a : A)
  | Throw (e : error).
Arguments Ret {A} a.
Arguments Throw {A} e.

Definition M (A : Type) : Type := World -> outcome A * World.

Definition ret {A} (a : A) : M A := fun w => (Ret a, w).

Definition throw {A} (e : error) : M A := fun w => (Throw e, w).

Definition bind {A B} (m : M A) (k : A -> M B) : M B :=
  fun w =>
    match m w with
    | (Ret a, w') => k a w'
    | (Throw e, w') => (Throw e, w')
    end.

(** [try { body } catch (error) { handler }]. *)
Definition try_catch {A} (body : M A) (handler : error -> M A) : M A :=
  fun w =>
    match body w with
    | (Ret a, w') => (Ret a, w')
    | (Throw e, w') => handler e w'
    end.

Definition settle {A} (o : outcome A) : M A := fun w => (o, w).

Definition log (l : log_line) : M unit := fun w => (Ret tt, print l w).

Declare Scope js_scope.
Delimit Scope js_scope with js.
Notation "x <~ m ;; k" := (bind m (fun x => k))
  (at level 100, m at next level, right associativity) : js_scope.
Notation "m ;;; k" := (bind m (fun _ => k))
  (at level 100, right associativity) : js_scope.
Local Open Scope js_scope.

(** ** The KV service *)

(** The service lists keys in lexicographic order of their bytes. *)
Definition key_le (a b : string) : Prop := String.leb a b = true.

#[global] Instance key_le_dec (a b : string) : Decision (key_le a b) :=
  bool_eq_dec (String.leb a b) true.

(** The names of the keys of the namespace that start with [prefix], in
    the order of the service. *)
Definition list_keys (prefix : string) (m : gmap string kv_text) : list string :=
  merge_sort key_le (List.filter (String.prefix prefix) (map fst (map_to_list m))).

(** One call of [kv.list] returns at most 1000 keys (the default and the
    maximum of its [limit] option, which the source does not set). *)
Definition list_limit : nat := 1000.

(** The [keys] of the result of [kv.list({ prefix })]: the first page. The
    source reads [listResult.keys] once; it never looks at
    [list_complete] and follows no [cursor]. *)
Definition list_page (prefix : string) (m : gmap string kv_text) : list string :=
  take list_limit (list_keys prefix m).

Arguments list_keys : simpl never.
Arguments list_page : simpl never.

Section Worker.

Variable O : Outside.

(** Every request to the service is counted, and rejects without any
    effect on the namespace when the outside says so. *)
Definition kv_request : M unit :=
  fun w =>
    if kv_rejects O (kv_calls w)
    then (Throw KVError, count_kv_call w)
    else (Ret tt, count_kv_call w).

(** [kv.list({ prefix })], of which the source uses the [keys]. *)
Definition kv_list (prefix : string) : M (list string) :=
  kv_request ;;;
  fun w => (Ret (list_page prefix (kv w)), w).

(** [kv.get(key, "json")]: [null] for a missing key. *)
Definition kv_get_json (key : string) : M (option StoredPost.t) :=
  kv_request ;;;
  fun w =>
    match kv w !! key with
    | None => (Ret None, w)
    | Some (JsonPost p) => (Ret (Some p), w)
    | Some JsonNull => (Ret None, w)
    | Some NotJson => (Throw JsonSyntaxError, w)
    end.

(** [kv.put(key, JSON.stringify(storedPost))]. *)
Definition kv_put (key : string) (value : kv_text) : M unit :=
  kv_request ;;;
  fun w => (Ret tt, set_kv (insert key value) w).

(** [kv.delete(key)]. *)
Definition kv_delete (key : string) : M unit :=
  kv_request ;;;
  fun w => (Ret tt, set_kv (delete key) w).

(** [Date.now()]. *)
Definition Date_now : M Z :=
  fun w => (Ret (date_now O (now_calls w)), count_now_call w).

(** ** The record store helpers *)

(** The body of [for (const key of listResult.keys)] in [getPostsFromKV]:
    a value that reads as falsy is not pushed. *)
Fixpoint getPostsFromKV_loop (keys : list string) (posts : list StoredPost.t)
  : M (list StoredPost.t) :=
  match keys with
  | [] => ret posts
  | key :: rest =>
      postData <~ kv_get_json key ;;
      match postData with
      | Some p => getPostsFromKV_loop rest (posts ++ [p])
      | None => getPostsFromKV_loop rest posts
      end
  end.

(** [getPostsFromKV(kv)]: one [try] around the listing and the whole loop. *)
Definition getPostsFromKV : M (list StoredPost.t) :=
  log LogFetchingKV ;;;
  try_catch
    (keys <~ kv_list "post:" ;;
     posts <~ getPostsFromKV_loop keys [] ;;
     log (LogRetrieved (length posts)) ;;;
     ret posts)
    (fun e => log (ErrFetchingKV e) ;;; ret []).

(** The [StoredPost] literal of [storePostInKV]. *)
Definition storedPost_of (post : RedditPost.t) (now : Z) : StoredPost.t :=
  {| StoredPost.post_id := RedditPost.id post;
     StoredPost.title := RedditPost.title post;
     StoredPost.permalink := RedditPost.permalink post;
     StoredPost.created_utc := RedditPost.created_utc post;
     StoredPost.author := RedditPost.author post;
     StoredPost.url := RedditPost.url post;
     StoredPost.selftext := RedditPost.selftext post;
     StoredPost.score := RedditPost.score post;
     StoredPost.stored_at := now |}.

(** The key template [`post:${post.id}`]. *)
Definition post_key (id : string) : string := "post:" +:+ id.

(** [storePostInKV(post, kv)]: the [try] is around the single [put]. *)
Definition storePostInKV (post : RedditPost.t) : M unit :=
  log (LogStoring (RedditPost.title post)) ;;;
  now <~ Date_now ;;
  let storedPost := storedPost_of post now in
  try_catch
    (kv_put (post_key (RedditPost.id post)) (JsonPost storedPost) ;;;
     log (LogStored (RedditPost.id post)))
    (fun e => log (ErrStore (RedditPost.id post) e)).

(** The body of [for (const key of listResult.keys)] in [cleanupOldPosts]. *)
Fixpoint cleanupOldPosts_loop (cutoffTime : Z) (keys : list string) (deletedCount : nat)
  : M nat :=
  match keys with
  | [] => ret deletedCount
  | key :: rest =>
      postData <~ kv_get_json key ;;
      match postData with
      | Some p =>
          if (StoredPost.stored_at p <? cutoffTime)%Z
          then
            kv_delete key ;;;
            log (LogDeleted (StoredPost.title p)) ;;;
            cleanupOldPosts_loop cutoffTime rest (S deletedCount)
          else cleanupOldPosts_loop cutoffTime rest deletedCount
      | None => cleanupOldPosts_loop cutoffTime rest deletedCount
      end
  end.

(** [const maxAgeMs = maxAgeDays * 24 * 60 * 60 * 1000]. *)
Definition maxAgeMs_of (maxAgeDays : Z) : Z := maxAgeDays * 24 * 60 * 60 * 1000.

(** [const cutoffTime = Date.now() - maxAgeMs], at the reading [now]. *)
Definition cutoffTime_of (now maxAgeDays : Z) : Z := now - maxAgeMs_of maxAgeDays.

(** [cleanupOldPosts(kv, maxAgeDays)]: its promise resolves to no value; the
    count of deletions only reaches the console. *)
Definition cleanupOldPosts (maxAgeDays : Z) : M unit :=
  log (LogCleaning maxAgeDays) ;;;
  now <~ Date_now ;;
  let cutoffTime := cutoffTime_of now maxAgeDays in
  try_catch
    (keys <~ kv_list "post:" ;;
     deletedCount <~ cleanupOldPosts_loop cutoffTime keys 0%nat ;;
     log (LogCleanupComplete deletedCount))
    (fun e => log (ErrCleanup e)).

(** The default [maxAgeDays = 30], as [scheduled] calls it. *)
Definition cleanupOldPosts_default : M unit := cleanupOldPosts 30.

(** ** The notifier *)

(** [s.includes(needle)]. *)
Fixpoint includes (s needle : string) : bool :=
  String.prefix needle s ||
  match s with
  | EmptyString => false
  | String _ rest => includes rest needle
  end.

(** A JavaScript string is a sequence of UTF-16 code units, and
    [s.length] and [s.substring] count in these units. The texts of this
    development are byte strings: the UTF-8 of the JavaScript string, a
    surrogate that is not part of a pair being written as the three bytes of
    its code. Equality, the order of keys and containment of an ASCII
    marker can be read off the bytes; lengths and positions cannot. *)

(** The UTF-16 code units of the character that the byte [a] starts: none
    for a continuation byte, one for a character of up to three bytes, two
    (a surrogate pair) for a character of four bytes. *)
Definition utf16_units (a : ascii) : nat :=
  let n := N_of_ascii a in
  if (n <? 128)%N then 1%nat
  else if (n <? 192)%N then 0%nat
  else if (n <? 240)%N then 1%nat
  else 2%nat.

(** [s.length]. *)
Fixpoint js_length (s : string) : nat :=
  match s with
  | EmptyString => 0%nat
  | String a rest => (utf16_units a + js_length rest)%nat
  end.

(** The first half of the surrogate pair of the four-byte character that
    starts with [a] and goes on in [rest]: the surrogate
    0xD800 + ((code - 0x10000) >> 10), whose bits are in the first three of
    the four bytes. *)
Definition high_surrogate (a : ascii) (rest : string) : string :=
  let byte i := match String.get i rest with
                | Some b => N_of_ascii b
                | None => 128%N
                end in
  let top := ((N_of_ascii a mod 8) * 256 + (byte 0%nat mod 64) * 4
              + (byte 1%nat mod 64) / 16)%N in
  let hi := (55296 + (top - 64))%N in
  String (ascii_of_N 237)
    (String (ascii_of_N (128 + (hi / 64) mod 64))
       (String (ascii_of_N (128 + hi mod 64)) EmptyString)).

(** [s.substring(0, n)]: the first [n] code units. When the [n]-th unit is
    the first half of a surrogate pair, the pair is split and the result
    ends with that half alone. *)
Fixpoint js_substring0 (n : nat) (s : string) : string :=
  match s with
  | EmptyString => EmptyString
  | String a rest =>
      match utf16_units a with
      | 0%nat => String a (js_substring0 n rest)
      | 1%nat =>
          match n with
          | 0%nat => EmptyString
          | S n' => String a (js_substring0 n' rest)
          end
      | _ =>
          match n with
          | 0%nat => EmptyString
          | 1%nat => high_surrogate a rest
          | S (S n') => String a (js_substring0 n' rest)
          end
      end
  end.

(** The [description] of the embed: the body text, cut to 300 code units
    and marked with an ellipsis when longer; a missing or empty body text is
    falsy and gives the fixed line. *)
Definition description_of (post : RedditPost.t) : string :=
  match RedditPost.selftext post with
  | Some selftext =>
      if String.eqb selftext ""
      then "Click the link to view this post on Reddit!"
      else if (300 <? js_length selftext)%nat
           then js_substring0 300 selftext +:+ "..."
           else selftext
  | None => "Click the link to view this post on Reddit!"
  end.

(** The condition under which [image] is added to the embed. *)
Definition has_image (url : string) : bool :=
  negb (String.eqb url "") &&
  (includes url ".jpg" || includes url ".png" || includes url ".gif" ||
   includes url "imgur" || includes url "i.redd.it").

(** [new Date(ms)] is a valid date within 8.64e15 ms of the epoch;
    [toISOString()] throws a [RangeError] on an invalid one. *)
Definition Date_valid (ms : Z) : bool := (Z.abs ms <=? 8640000000000000)%Z.

Definition toISOString (ms : Z) : M Z :=
  if Date_valid ms then ret ms else throw RangeError.

Definition discordMessage_of (post : RedditPost.t) (timestamp : Z) : DiscordMessage :=
  {| dm_username := "Guinness Scanner";
     dm_avatar_url := "https://logoeps.com/wp-content/uploads/2013/03/guinness-vector-logo.png";
     dm_content := "🍺 **New post in r/guinness!**";
     dm_embeds :=
       [ {| em_author :=
              {| ea_name := "u/" +:+ RedditPost.author post;
                 ea_url := "https://reddit.com/u/" +:+ RedditPost.author post;
                 ea_icon_url := "https://www.redditstatic.com/desktop2x/img/favicon/android-icon-192x192.png" |};
            em_title := RedditPost.title post;
            em_url := "https://reddit.com" +:+ RedditPost.permalink post;
            em_description := description_of post;
            em_color := 0;
            em_fields :=
              [ {| ef_name := "📊 Score";
                   ef_value := pretty (RedditPost.score post) +:+ " points";
                   ef_inline := true |};
                {| ef_name := "🕒 Posted";
                   ef_value := "<t:" +:+ pretty (RedditPost.created_utc post) +:+ ":R>";
                   ef_inline := true |};
                {| ef_name := "🔗 Subreddit";
                   ef_value := "r/guinness";
                   ef_inline := true |} ];
            em_thumbnail := "https://styles.redditmedia.com/t5_2qh2w/styles/communityIcon_6kzk4e2pke831.png";
            em_footer :=
              {| fo_text := "Sláinte! 🍻";
                 fo_icon_url := "https://logoeps.com/wp-content/uploads/2013/03/guinness-vector-logo.png" |};
            em_timestamp := timestamp;
            em_image :=
              if has_image (RedditPost.url post) then Some (RedditPost.url post) else None |} ] |}.

(** [fetch(webhookUrl, { method: "POST", ... })]: the request leaves, then
    the promise settles as the outside decides. *)
Definition fetch_webhook (webhookUrl : string) (body : DiscordMessage) : M Response :=
  fun w =>
    match webhook_reply O (fetch_calls w) with
    | FetchRejects => (Throw FetchError, post_request webhookUrl body w)
    | FetchResolves response => (Ret response, post_request webhookUrl body w)
    end.

(** [response.text()]. *)
Definition response_text (response : Response) : M string :=
  match body_text response with
  | Some t => ret t
  | None => throw FetchError
  end.

(** [!webhookUrl]: the variable is unset or the empty string. *)
Definition webhook_configured (env : Env) : option string :=
  match DISCORD_WEBHOOK_URL env with
  | Some webhookUrl => if String.eqb webhookUrl "" then None else Some webhookUrl
  | None => None
  end.

(** [sendDiscordNotification(post, env)]. *)
Definition sendDiscordNotification (post : RedditPost.t) (env : Env) : M unit :=
  match webhook_configured env with
  | None => log LogNoWebhook
  | Some webhookUrl =>
      try_catch
        (timestamp <~ toISOString (RedditPost.created_utc post * 1000) ;;
         let discordMessage := discordMessage_of post timestamp in
         log (LogSending (RedditPost.title post)) ;;;
         response <~ fetch_webhook webhookUrl discordMessage ;;
         if negb (ok response)
         then
           errorText <~ response_text response ;;
           log (ErrWebhookFailed (status response) (statusText response)) ;;;
           log (ErrWebhookBody errorText)
         else log (LogSent (RedditPost.title post)))
        (fun e => log (ErrSending e))
  end.

(** ** The orchestrator *)

(** [posts.filter((post) => !storedPosts.some((storedPost) =>
    storedPost.post_id === post.id))]. *)
Definition newPosts_of (posts : list RedditPost.t) (storedPosts : list StoredPost.t)
  : list RedditPost.t :=
  List.filter
    (fun post =>
       negb (existsb (fun storedPost =>
                        String.eqb (StoredPost.post_id storedPost) (RedditPost.id post))
                     storedPosts))
    posts.

(** [for (const post of newPosts)]: store, then notify, one post at a time. *)
Fixpoint scheduled_loop (env : Env) (newPosts : list RedditPost.t) : M unit :=
  match newPosts with
  | [] => ret tt
  | post :: rest =>
      log (LogPostTitle (RedditPost.title post)) ;;;
      log (LogPostLink ("https://reddit.com" +:+ RedditPost.permalink post)) ;;;
      storePostInKV post ;;;
      sendDiscordNotification post env ;;;
      scheduled_loop env rest
  end.

(** [scheduled(event, env, ctx)]. The feed client is outside the properties
    below: [getPosts] is what [reddit.getPosts()] settles to, the fetched
    posts or a rejection. *)
Definition scheduled (cron : string) (env : Env) (getPosts : outcome (list RedditPost.t))
  : M unit :=
  log (LogCron cron) ;;;
  try_catch
    (posts <~ settle getPosts ;;
     log (LogFetched (length posts)) ;;;
     storedPosts <~ getPostsFromKV ;;
     log (LogStoredCount (length storedPosts)) ;;;
     let newPosts := newPosts_of posts storedPosts in
     log (LogNewCount (length newPosts)) ;;;
     scheduled_loop env newPosts ;;;
     cleanupOldPosts_default)
    (fun e => log (ErrScheduled e)).

End Worker.

(** * Properties *)

(** ** Vocabulary of the statements *)

(** No request to the KV service rejects from the [from]-th on. *)
Definition no_rejects (O : Outside) (from : nat) : Prop :=
  forall n, (from <= n)%nat -> kv_rejects O n = false.

(** The keys the worker's listings see: the first page of the keys under
    [post:]. *)
Definition listing (m : gmap string kv_text) : list string := list_page "post:" m.

(** The keys under [post:] fit on the page of one listing. *)
Definition one_page (m : gmap string kv_text) : bool :=
  (length (list_keys "post:" m) <=? list_limit)%nat.

(** They still do after [n] more keys are added. *)
Definition room_for (n : nat) (m : gmap string kv_text) : bool :=
  (length (list_keys "post:" m) + n <=? list_limit)%nat.

(** The record read back from a key, if the value is one. *)
Definition json_post_at (m : gmap string kv_text) (key : string) : option StoredPost.t :=
  match m !! key with
  | Some (JsonPost p) => Some p
  | _ => None
  end.

(** The records under the listed keys, in the order of the listing: what
    a listing followed by a read of each key finds. *)
Definition stored_of (m : gmap string kv_text) : list StoredPost.t :=
  omap (json_post_at m) (listing m).


(** Every value under a listed key is JSON. *)
Definition readable (m : gmap string kv_text) : bool :=
  forallb (fun k => match m !! k with Some NotJson => false | _ => true end)
          (listing m).

(** Every value under [post:] is JSON, listed or not. *)
Definition parsable (m : gmap string kv_text) : bool :=
  forallb (fun k => match m !! k with Some NotJson => false | _ => true end)
          (list_keys "post:" m).

(** Every record under [post:] sits under the key derived from its
    identifier, as in a namespace that only [storePostInKV] has written
    to. *)
Definition well_keyed (m : gmap string kv_text) : bool :=
  forallb (fun k => match m !! k with
                    | Some (JsonPost p) => String.eqb k (post_key (StoredPost.post_id p))
                    | _ => true
                    end)
          (list_keys "post:" m).

(** A text of ASCII characters only, and one without characters of four
    bytes (those outside the basic plane, which take two code units). *)
Fixpoint ascii_text (s : string) : bool :=
  match s with
  | EmptyString => true
  | String a rest => (N_of_ascii a <? 128)%N && ascii_text rest
  end.

Fixpoint bmp_text (s : string) : bool :=
  match s with
  | EmptyString => true
  | String a rest => (N_of_ascii a <? 240)%N && bmp_text rest
  end.

(** The webhook requests one call of [sendDiscordNotification] issues: none
    without a configured endpoint or when the post's date is invalid (the
    message is never built), one otherwise. *)
Definition notification_of (env : Env) (post : RedditPost.t)
  : list (string * DiscordMessage) :=
  match webhook_configured env with
  | None => []
  | Some webhookUrl =>
      if Date_valid (RedditPost.created_utc post * 1000)
      then [(webhookUrl, discordMessage_of post (RedditPost.created_utc post * 1000))]
      else []
  end.

(** The namespace after [storePostInKV] ran once for each post of a list:
    the post at position [i] is stamped with the [t + i]-th clock reading and
    written by the [n + i]-th request, unless that request rejects. *)
Fixpoint stored_after (O : Outside) (posts : list RedditPost.t) (n t : nat)
         (m : gmap string kv_text) : gmap string kv_text :=
  match posts with
  | [] => m
  | post :: rest =>
      stored_after O rest (S n) (S t)
        (if kv_rejects O n then m
         else <[post_key (RedditPost.id post) :=
                  JsonPost (storedPost_of post (date_now O t))]> m)
  end.

(** The namespace after a sweep over [keys] in which no request fails. *)
Fixpoint swept (cutoffTime : Z) (keys : list string) (m : gmap string kv_text)
  : gmap string kv_text :=
  match keys with
  | [] => m
  | key :: rest =>
      match json_post_at m key with
      | Some p =>
          if (StoredPost.stored_at p <? cutoffTime)%Z
          then swept cutoffTime rest (delete key m)
          else swept cutoffTime rest m
      | None => swept cutoffTime rest m
      end
  end.

(** What a completed sweep leaves of a listed value. *)
Definition sweep_value (cutoffTime : Z) (v : kv_text) : option kv_text :=
  match v with
  | JsonPost p => if (StoredPost.stored_at p <? cutoffTime)%Z then None else Some v
  | _ => Some v
  end.

(** ** Sample data for the closed examples *)

Module Sample.

Definition post (i : string) (created : Z) : RedditPost.t :=
  RedditPost.mk i ("title " +:+ i) ("/r/guinness/comments/" +:+ i) created
                "bob" "https://i.redd.it/pint.jpg" None 3.

(** A post with a body text. *)
Definition saying (text : string) : RedditPost.t :=
  RedditPost.mk "p9" "title p9" "/r/guinness/comments/p9" 1700000000
                "bob" "https://example.org/" (Some text) 3.

Definition p1 : RedditPost.t := post "p1" 1700000000.
Definition p2 : RedditPost.t := post "p2" 1700000100.
Definition p3 : RedditPost.t := post "p3" 1700000200.

Definition no_content : Response :=
  {| ok := true; status := 204; statusText := "No Content"; body_text := Some "" |}.

(** Nothing fails; the clock reads 5,000,000,000 ms and advances by one
    millisecond per reading. *)
Definition quiet : Outside :=
  {| kv_rejects := fun _ => false;
     date_now := fun n => 5000000000 + Z.of_nat n;
     webhook_reply := fun _ => FetchResolves no_content |}.

(** As [quiet], but the [n]-th KV request rejects. *)
Definition rejecting (n : nat) : Outside :=
  {| kv_rejects := fun i => Nat.eqb i n;
     date_now := date_now quiet;
     webhook_reply := webhook_reply quiet |}.

Definition env : Env :=
  {| REDDIT_CLIENT_ID := "client"; REDDIT_CLIENT_SECRET := "secret";
     DISCORD_WEBHOOK_URL := Some "https://discord.example/webhook" |}.

Definition env_no_webhook : Env :=
  {| REDDIT_CLIENT_ID := "client"; REDDIT_CLIENT_SECRET := "secret";
     DISCORD_WEBHOOK_URL := None |}.

Definition world (m : gmap string kv_text) : World := mkWorld m 0 0 0 [] [].

Definition record (p : RedditPost.t) (stored_at : Z) : kv_text :=
  JsonPost (storedPost_of p stored_at).

(** Two records stored long before the cutoff of [quiet]'s clock,
    5,000,000,000 - 2,592,000,000 = 2,408,000,000; [post:p1] is listed
    first. *)
Definition two_old : gmap string kv_text :=
  <[post_key "p1" := record p1 100]> (<[post_key "p2" := record p2 200]> ∅).

(** One record, stored long before the cutoff. *)
Definition stale : gmap string kv_text := <[post_key "p1" := record p1 100]> ∅.

(** One record, stored a second before [quiet]'s clock starts. *)
Definition recent : gmap string kv_text :=
  <[post_key "p2" := record p2 4999999000]> ∅.

(** Records stored 40 and 20 days before [quiet]'s clock starts. *)
Definition forty_twenty : gmap string kv_text :=
  <[post_key "p1" := record p1 (5000000000 - 40 * 86400000)]>
    (<[post_key "p2" := record p2 (5000000000 - 20 * 86400000)]> ∅).

(** A record followed in the listing by a value that is not JSON. *)
Definition corrupt : gmap string kv_text :=
  <[post_key "p1" := record p1 100]> (<[post_key "p2" := NotJson]> ∅).

(** Records one millisecond on either side of the cutoff, one exactly at
    it, and a key whose value reads as [null]. *)
Definition boundary : gmap string kv_text :=
  <[post_key "p1" := record p1 2407999999]>
    (<[post_key "p2" := record p2 2408000001]>
       (<[post_key "p3" := record p3 2408000000]>
          (<[post_key "gone" := JsonNull]> ∅))).

(** [n] records, under the keys [post:0], [post:1], ..., all stored at
    [stored_at]. Among 1001 of them the last key in the order of the
    service is [post:999]. *)
Definition crowd (n : nat) (stored_at : Z) : gmap string kv_text :=
  foldr (fun i m => <[post_key (pretty i) := record (post (pretty i) 1700000000) stored_at]> m)
        ∅ (seq 0 n).

(** A text of 151 characters of two bytes each, and one of 299 letters
    followed by a character of four bytes. *)
Definition accents : string :=
  foldr (fun _ s => "é" +:+ s) "" (seq 0 151).

Definition letters_then_beer : string :=
  foldr (fun _ s => "a" +:+ s) "🍺!" (seq 0 299).

End Sample.

(** * The rest of the worker

    The two store helpers that [scheduled] does not call and the feed
    client. Their console lines and the state of the client instance are
    kept beside the [World], in a [Client]. *)

(** One constructor per [console.log] / [console.error] call site of
    [getPostById], [getRecentPosts] and [RedditAPI]. *)
Inductive note : Type :=
  | ErrFetchingPost (postId : string) (e : error)
  | ErrRecentPosts (e : error)
  | LogCachedToken
  | LogRequestingToken
  | ErrTokenStatus (status : Z) (statusText : string)
  | ErrTokenBody (errorText : string)
  | LogTokenObtained
  | LogFetchingUrl (url : string)
  | ErrUrlStatus (url : string) (status : Z) (statusText : string)
  | ErrUrlBody (errorText : string)
  | LogFetchedFromReddit (n : nat)
  | ErrGetPosts (e : error).

(** A request of the feed client: where it goes and the headers and body
    the source sets. *)
Record api_request : Type := {
  rq_method : string;
  rq_url : string;
  rq_authorization : string;
  rq_content_type : option string;
  rq_user_agent : string;
  rq_body : option string
}.

(** How a [fetch] of the feed client settles: it rejects, or resolves to a
    response; [json] is what [res.json()] gives, [None] when it rejects. The
    casts of the source fix the shape of the body: the token for the token
    endpoint, the posts of [data.children] for the listing. *)
Inductive api_reply (B : Type) : Type :=
  | ApiRejects
  | ApiResolves (response : Response) (json : option B).
Arguments ApiRejects {B}.
Arguments ApiResolves {B} response json.

(** The behaviour of the feed API and of the platform's [btoa]. *)
Record Reddit : Type := {
  btoa : string -> string;
  token_reply : nat -> api_reply string;
  listing_reply : nat -> api_reply (list RedditPost.t)
}.

(** [class RedditAPI]: the read-only fields of an instance. The mutable
    [accessToken] is in the [Client]. *)
Record RedditAPI : Type := {
  clientId : string;
  clientSecret : string;
  limit : Z
}.

Definition USER_AGENT : string := "CreamyBot/1.0 (by /u/dazftw)".

Record Client : Type := mkClient {
  world : World;
  accessToken : option string;   (* [None] is [null] *)
  token_calls : nat;
  listing_calls : nat;
  requests : list api_request;
  notes : list note
}.

Definition set_world (w : World) (c : Client) : Client :=
  mkClient w (accessToken c) (token_calls c) (listing_calls c) (requests c) (notes c).

Definition set_accessToken (t : option string) (c : Client) : Client :=
  mkClient (world c) t (token_calls c) (listing_calls c) (requests c) (notes c).

Definition token_request (rq : api_request) (c : Client) : Client :=
  mkClient (world c) (accessToken c) (S (token_calls c)) (listing_calls c)
           (requests c ++ [rq]) (notes c).

Definition listing_request (rq : api_request) (c : Client) : Client :=
  mkClient (world c) (accessToken c) (token_calls c) (S (listing_calls c))
           (requests c ++ [rq]) (notes c).

Definition jot (n : note) (c : Client) : Client :=
  mkClient (world c) (accessToken c) (token_calls c) (listing_calls c) (requests c)
           (notes c ++ [n]).

(** The monad of awaited calls over a [Client]. *)
Definition MC (A : Type) : Type := Client -> outcome A * Client.

Definition retC {A} (a : A) : MC A := fun c => (Ret a, c).

Definition throwC {A} (e : error) : MC A := fun c => (Throw e, c).

Definition bindC {A B} (m : MC A) (k : A -> MC B) : MC B :=
  fun c =>
    match m c with
    | (Ret a, c') => k a c'
    | (Throw e, c') => (Throw e, c')
    end.

Definition try_catchC {A} (body : MC A) (handler : error -> MC A) : MC A :=
  fun c =>
    match body c with
    | (Ret a, c') => (Ret a, c')
    | (Throw e, c') => handler e c'
    end.

Definition say (n : note) : MC unit := fun c => (Ret tt, jot n c).

(** A call of the worker proper, run on the client's world. *)
Definition lift {A} (m : M A) : MC A :=
  fun c => let (r, w) := m (world c) in (r, set_world w c).

Declare Scope client_scope.
Delimit Scope client_scope with client.
Notation "x <~ m ;; k" := (bindC m (fun x => k))
  (at level 100, m at next level, right associativity) : client_scope.
Notation "m ;;; k" := (bindC m (fun _ => k))
  (at level 100, right associativity) : client_scope.

(** ** The optional store helpers *)

(** [posts.sort((a, b) => b.stored_at - a.stored_at)]: most recent first;
    the sort of the platform is stable, so records with equal time stamps
    keep their order. *)
Fixpoint insert_recent (a : StoredPost.t) (sorted : list StoredPost.t)
  : list StoredPost.t :=
  match sorted with
  | [] => [a]
  | b :: rest =>
      if (StoredPost.stored_at a <? StoredPost.stored_at b)%Z
      then b :: insert_recent a rest
      else a :: b :: rest
  end.

Definition sort_recent (posts : list StoredPost.t) : list StoredPost.t :=
  foldr insert_recent [] posts.

(** The order of the sorted array: [a] may come before [b]. *)
Definition newer_or_equal (a b : StoredPost.t) : Prop :=
  (StoredPost.stored_at b <= StoredPost.stored_at a)%Z.

(** [array.slice(0, end)]: a negative [end] counts from the end of the
    array. *)
Definition slice0 {A} (finish : Z) (l : list A) : list A :=
  if (finish <? 0)%Z
  then take (Z.to_nat (Z.of_nat (length l) + finish)) l
  else take (Z.to_nat finish) l.

Section Helpers.

Variable O : Outside.

Local Open Scope client_scope.

(** [getPostById(kv, postId)]. *)
Definition getPostById (postId : string) : MC (option StoredPost.t) :=
  try_catchC
    (lift (kv_get_json O (post_key postId)))
    (fun e => say (ErrFetchingPost postId e) ;;; retC None).

(** [getRecentPosts(kv, limit)]; its loop is, word for word, the loop of
    [getPostsFromKV]. *)
Definition getRecentPosts (limit : Z) : MC (list StoredPost.t) :=
  try_catchC
    (keys <~ lift (kv_list O "post:") ;;
     posts <~ lift (getPostsFromKV_loop O keys []) ;;
     retC (slice0 limit (sort_recent posts)))
    (fun e => say (ErrRecentPosts e) ;;; retC []).

(** The default [limit = 5]. *)
Definition getRecentPosts_default : MC (list StoredPost.t) := getRecentPosts 5.

End Helpers.

(** ** The feed client *)

Section FeedClient.

Variable R : Reddit.

Local Open Scope client_scope.

(** [fetch("https://www.reddit.com/api/v1/access_token", ...)]. *)
Definition fetch_token (rq : api_request) : MC (Response * option string) :=
  fun c =>
    match token_reply R (token_calls c) with
    | ApiRejects => (Throw FetchError, token_request rq c)
    | ApiResolves response json => (Ret (response, json), token_request rq c)
    end.

(** [fetch(url, { headers })] of [fetchWithAuth]. *)
Definition fetch_listing (rq : api_request)
  : MC (Response * option (list RedditPost.t)) :=
  fun c =>
    match listing_reply R (listing_calls c) with
    | ApiRejects => (Throw FetchError, listing_request rq c)
    | ApiResolves response json => (Ret (response, json), listing_request rq c)
    end.

(** [res.json()]. *)
Definition res_json {B} (json : option B) : MC B :=
  match json with
  | Some j => retC j
  | None => throwC FetchError
  end.

(** [res.text()]. *)
Definition res_text (response : Response) : MC string :=
  match body_text response with
  | Some t => retC t
  | None => throwC FetchError
  end.

(** [this.accessToken] as a condition: [null] and the empty string are
    falsy. *)
Definition cached_token (c : Client) : option string :=
  match accessToken c with
  | Some token => if String.eqb token "" then None else Some token
  | None => None
  end.

(** The request of [getAccessToken]. *)
Definition token_rq (api : RedditAPI) : api_request :=
  {| rq_method := "POST";
     rq_url := "https://www.reddit.com/api/v1/access_token";
     rq_authorization :=
       "Basic " +:+ btoa R (clientId api +:+ ":" +:+ clientSecret api);
     rq_content_type := Some "application/x-www-form-urlencoded";
     rq_user_agent := USER_AGENT;
     rq_body := Some "grant_type=client_credentials" |}.

(** The request of [fetchWithAuth]. *)
Definition listing_rq (token url : string) : api_request :=
  {| rq_method := "GET";
     rq_url := url;
     rq_authorization := "Bearer " +:+ token;
     rq_content_type := None;
     rq_user_agent := USER_AGENT;
     rq_body := None |}.

(** [getAccessToken()]. The [Error] thrown on a response that is not ok is
    carried as [FeedError]. *)
Definition getAccessToken (api : RedditAPI) : MC string :=
  fun c =>
    match cached_token c with
    | Some token => (say LogCachedToken ;;; retC token) c
    | None =>
        (say LogRequestingToken ;;;
         res <~ fetch_token (token_rq api) ;;
         if negb (ok (fst res))
         then
           say (ErrTokenStatus (status (fst res)) (statusText (fst res))) ;;;
           errorText <~ res_text (fst res) ;;
           say (ErrTokenBody errorText) ;;;
           throwC FeedError
         else
           json <~ res_json (snd res) ;;
           (fun c' => (Ret tt, set_accessToken (Some json) c')) ;;;
           say LogTokenObtained ;;;
           retC json) c
    end.

(** [fetchWithAuth(url)]: the response is returned whether ok or not. *)
Definition fetchWithAuth (api : RedditAPI) (url : string)
  : MC (Response * option (list RedditPost.t)) :=
  token <~ getAccessToken api ;;
  say (LogFetchingUrl url) ;;;
  res <~ fetch_listing (listing_rq token url) ;;
  if negb (ok (fst res))
  then
    say (ErrUrlStatus url (status (fst res)) (statusText (fst res))) ;;;
    errorText <~ res_text (fst res) ;;
    say (ErrUrlBody errorText) ;;;
    retC res
  else retC res.

(** The template [`https://oauth.reddit.com/r/guinness/new?limit=${this.limit}`]. *)
Definition listing_url (api : RedditAPI) : string :=
  "https://oauth.reddit.com/r/guinness/new?limit=" +:+ pretty (limit api).

(** [getPosts()]: every failure is logged and thrown again. *)
Definition getPosts (api : RedditAPI) : MC (list RedditPost.t) :=
  try_catchC
    (res <~ fetchWithAuth api (listing_url api) ;;
     if negb (ok (fst res))
     then throwC FeedError
     else
       json <~ res_json (snd res) ;;
       say (LogFetchedFromReddit (length json)) ;;;
       retC json)
    (fun e => say (ErrGetPosts e) ;;; throwC e).

(** [new RedditAPI(env.REDDIT_CLIENT_ID, env.REDDIT_CLIENT_SECRET)]: the
    limit defaults to 5. *)
Definition new_RedditAPI (env : Env) : RedditAPI :=
  {| clientId := REDDIT_CLIENT_ID env;
     clientSecret := REDDIT_CLIENT_SECRET env;
     limit := 5 |}.

(** The [scheduled] handler with its feed client: a fresh instance (no
    token) fetches the posts, and what that settles to enters [scheduled]. *)
Definition scheduled_handler (O : Outside) (cron : string) (env : Env) : MC unit :=
  fun c =>
    let (fetched, c1) := getPosts (new_RedditAPI env) (set_accessToken None c) in
    lift (scheduled O cron env fetched) c1.

End FeedClient.

(** ** Sample feed and store for the closed examples *)

Module Demo.

Definition replying (token : api_reply string)
           (listing : api_reply (list RedditPost.t)) : Reddit :=
  {| btoa := fun s => "b64(" +:+ s +:+ ")";
     token_reply := fun _ => token;
     listing_reply := fun _ => listing |}.

Definition ok_response : Response :=
  {| ok := true; status := 200; statusText := "OK"; body_text := Some "{}" |}.

Definition unauthorized : Response :=
  {| ok := false; status := 401; statusText := "Unauthorized";
     body_text := Some "denied" |}.

(** The token endpoint issues [tok], the listing returns [p1] and [p2]. *)
Definition healthy : Reddit :=
  replying (ApiResolves ok_response (Some "tok"))
           (ApiResolves ok_response (Some [Sample.p1; Sample.p2])).

(** The token endpoint answers 401. *)
Definition locked_out : Reddit :=
  replying (ApiResolves unauthorized None)
           (ApiResolves ok_response (Some [Sample.p1; Sample.p2])).

(** The token endpoint issues the empty string. *)
Definition empty_token : Reddit :=
  replying (ApiResolves ok_response (Some ""))
           (ApiResolves ok_response (Some [Sample.p1; Sample.p2])).

Definition api : RedditAPI := new_RedditAPI Sample.env.

Definition client (w : World) : Client := mkClient w None 0 0 [] [].

(** Three records with time stamps 300, 100 and 200; [post:p1] is listed
    first. *)
Definition three : gmap string kv_text :=
  <[post_key "p1" := Sample.record Sample.p1 300]>
    (<[post_key "p2" := Sample.record Sample.p2 100]>
       (<[post_key "p3" := Sample.record Sample.p3 200]> ∅)).

End Demo.

Local Open Scope nat_scope.

(** ** Keys and listings *)

Lemma post_key_inj (a b : string) : post_key a = post_key b -> a = b.
Proof. unfold post_key. simpl. intros H. by simplify_eq. Qed.

Lemma post_key_prefix (i : string) : String.prefix "post:" (post_key i) = true.
Proof. destruct i; reflexivity. Qed.

Lemma list_keys_Permutation (prefix : string) (m : gmap string kv_text) :
  list_keys prefix m ≡ₚ List.filter (String.prefix prefix) (map fst (map_to_list m)).
Proof. apply merge_sort_Permutation. Qed.

Lemma elem_of_list_keys (prefix : string) (m : gmap string kv_text) (k : string) :
  k ∈ list_keys prefix m <-> String.prefix prefix k = true /\ is_Some (m !! k).
Proof.
  rewrite list_keys_Permutation.
  rewrite list_elem_of_In, filter_In, <- list_elem_of_In.
  rewrite list_elem_of_fmap. split.
  - intros [[[k' v] [-> Hin]] Hp]. split; [done|].
    apply elem_of_map_to_list in Hin. by exists v.
  - intros [Hp [v Hv]]. split; [|done].
    exists (k, v). split; [done|]. by apply elem_of_map_to_list.
Qed.

Lemma NoDup_list_keys (prefix : string) (m : gmap string kv_text) :
  NoDup (list_keys prefix m).
Proof.
  rewrite list_keys_Permutation.
  apply NoDup_ListNoDup, List.NoDup_filter, NoDup_ListNoDup.
  apply NoDup_fst_map_to_list.
Qed.





Lemma elem_of_listing_all (m : gmap string kv_text) (k : string) :
  k ∈ listing m -> k ∈ list_keys "post:" m.
Proof.
  unfold listing, list_page. intros (i & Hi & _)%elem_of_take.
  by apply list_elem_of_lookup_2 in Hi.
Qed.

Lemma elem_of_listing_1 (m : gmap string kv_text) (k : string) :
  k ∈ listing m -> String.prefix "post:" k = true /\ is_Some (m !! k).
Proof. intros H%elem_of_listing_all. by apply elem_of_list_keys. Qed.

Lemma one_page_spec (m : gmap string kv_text) :
  one_page m <-> length (list_keys "post:" m) <= list_limit.
Proof. unfold one_page. by rewrite Is_true_true, Nat.leb_le. Qed.

Lemma room_for_spec (n : nat) (m : gmap string kv_text) :
  room_for n m <-> length (list_keys "post:" m) + n <= list_limit.
Proof. unfold room_for. by rewrite Is_true_true, Nat.leb_le. Qed.

Lemma room_for_one_page (n : nat) (m : gmap string kv_text) :
  room_for n m -> one_page m.
Proof. rewrite room_for_spec, one_page_spec. lia. Qed.

(** When the keys fit on one page, the listing has them all. *)
Lemma listing_one_page (m : gmap string kv_text) :
  one_page m -> listing m = list_keys "post:" m.
Proof.
  intros H%one_page_spec. unfold listing, list_page. by apply take_ge.
Qed.

Lemma elem_of_listing (m : gmap string kv_text) (k : string) :
  one_page m ->
  k ∈ listing m <-> String.prefix "post:" k = true /\ is_Some (m !! k).
Proof. intros H. rewrite (listing_one_page m H). apply elem_of_list_keys. Qed.

Lemma NoDup_listing (m : gmap string kv_text) : NoDup (listing m).
Proof.
  unfold listing, list_page.
  apply (sublist_NoDup _ (list_keys "post:" m)); [apply NoDup_list_keys|].
  apply sublist_take.
Qed.

Lemma parsable_spec (m : gmap string kv_text) :
  parsable m <->
  forall k, String.prefix "post:" k = true -> m !! k <> Some NotJson.
Proof.
  unfold parsable. rewrite Is_true_true, forallb_forall. split.
  - intros H k Hp Hk.
    assert (Hin : In k (list_keys "post:" m)).
    { apply list_elem_of_In, elem_of_list_keys. split; [done|]. by rewrite Hk. }
    apply H in Hin. by rewrite Hk in Hin.
  - intros H k Hin. apply list_elem_of_In, elem_of_list_keys in Hin as [Hp _].
    specialize (H k Hp). by destruct (m !! k) as [[]|].
Qed.

Lemma readable_spec (m : gmap string kv_text) :
  readable m <-> forall k, k ∈ listing m -> m !! k <> Some NotJson.
Proof.
  unfold readable. rewrite Is_true_true, forallb_forall. split.
  - intros H k Hin Hk. apply list_elem_of_In, H in Hin. by rewrite Hk in Hin.
  - intros H k Hin. apply list_elem_of_In, H in Hin.
    by destruct (m !! k) as [[]|].
Qed.

Lemma parsable_readable (m : gmap string kv_text) : parsable m -> readable m.
Proof.
  rewrite parsable_spec, readable_spec. intros H k Hin.
  apply H. by apply elem_of_listing_1 in Hin as [? _].
Qed.

Lemma well_keyed_spec (m : gmap string kv_text) :
  well_keyed m <->
  forall k p, String.prefix "post:" k = true ->
              m !! k = Some (JsonPost p) -> k = post_key (StoredPost.post_id p).
Proof.
  unfold well_keyed. rewrite Is_true_true, forallb_forall. split.
  - intros H k p Hp Hk.
    assert (Hin : In k (list_keys "post:" m)).
    { apply list_elem_of_In, elem_of_list_keys. split; [done|]. by rewrite Hk. }
    apply H in Hin. rewrite Hk in Hin. by apply String.eqb_eq.
  - intros H k Hin. apply list_elem_of_In, elem_of_list_keys in Hin as [Hp _].
    destruct (m !! k) as [[p| |]|] eqn:E; try done.
    apply String.eqb_eq. by apply H.
Qed.

(** Adding a key makes the list of keys longer by at most one, and a
    namespace with fewer keys has a shorter list. *)
Lemma length_list_keys_mono (prefix : string) (m m' : gmap string kv_text) :
  (forall k, is_Some (m' !! k) -> is_Some (m !! k)) ->
  length (list_keys prefix m') <= length (list_keys prefix m).
Proof.
  intros H. apply submseteq_length, NoDup_submseteq; [apply NoDup_list_keys|].
  intros k [Hp Hk]%elem_of_list_keys. apply elem_of_list_keys. auto.
Qed.

Lemma length_list_keys_insert (prefix k : string) (v : kv_text)
      (m : gmap string kv_text) :
  length (list_keys prefix (<[k := v]> m)) <= S (length (list_keys prefix m)).
Proof.
  change (S (length (list_keys prefix m))) with (length (k :: list_keys prefix m)).
  apply submseteq_length, NoDup_submseteq; [apply NoDup_list_keys|].
  intros k' [Hp Hk]%elem_of_list_keys.
  destruct (decide (k' = k)) as [->|Hne]; [left|right].
  apply elem_of_list_keys. by rewrite lookup_insert_ne in Hk.
Qed.

(** ** Loading the stored records *)

Section Loading.

Variable O : Outside.

(** Without rejections and without unparsable values the loop reads every
    key once and keeps exactly the values that are records. *)
Lemma getPostsFromKV_loop_ok (keys : list string) :
  forall acc m n t f o c,
    no_rejects O n ->
    (forall k, k ∈ keys -> m !! k <> Some NotJson) ->
    getPostsFromKV_loop O keys acc (mkWorld m n t f o c)
    = (Ret (acc ++ omap (json_post_at m) keys), mkWorld m (n + length keys) t f o c).
Proof.
  induction keys as [|k ks IH]; intros acc m n t f o c Hn Hp.
  - simpl. unfold ret. by rewrite app_nil_r, Nat.add_0_r.
  - assert (Hk : m !! k <> Some NotJson) by (apply Hp; left).
    assert (Hks : forall k', k' ∈ ks -> m !! k' <> Some NotJson)
      by (intros k' Hin; apply Hp; by right).
    assert (Hn' : no_rejects O (S n)) by (intros i Hi; apply Hn; lia).
    cbn [getPostsFromKV_loop omap list_omap].
    unfold bind at 1, kv_get_json, bind, kv_request, count_kv_call. cbn.
    rewrite (Hn n) by lia. cbn. unfold json_post_at at 1.
    destruct (m !! k) as [[p| |]|]; try done.
    + rewrite (IH _ _ _ _ _ _ _ Hn' Hks). rewrite <- app_assoc. cbn.
      do 2 f_equal. lia.
    + rewrite (IH _ _ _ _ _ _ _ Hn' Hks). do 2 f_equal. lia.
    + rewrite (IH _ _ _ _ _ _ _ Hn' Hks). do 2 f_equal. lia.
Qed.

(** Whatever the outside does, the loop returns all the records of its
    keys or throws; it never returns a part of them. *)
Lemma getPostsFromKV_loop_all_or_throw (keys : list string) :
  forall acc w l w',
    getPostsFromKV_loop O keys acc w = (Ret l, w') ->
    l = acc ++ omap (json_post_at (kv w)) keys.
Proof.
  induction keys as [|k ks IH]; intros acc w l w' H.
  - cbn in H. unfold ret in H. simplify_eq. by rewrite app_nil_r.
  - cbn [getPostsFromKV_loop omap list_omap] in *.
    unfold bind at 1, kv_get_json, bind, kv_request in H.
    destruct (kv_rejects O (kv_calls w)); [done|].
    cbn in H. unfold json_post_at at 1.
    destruct (kv w !! k) as [[p| |]|]; [| |done|].
    + apply IH in H. cbn in H. by rewrite <- app_assoc in H.
    + by apply IH in H.
    + by apply IH in H.
Qed.

(** A listed value that is not JSON makes the loop throw, whatever was
    collected before it. *)
Lemma getPostsFromKV_loop_corrupt (keys : list string) :
  forall acc w,
    (exists k, k ∈ keys /\ kv w !! k = Some NotJson) ->
    exists e w', getPostsFromKV_loop O keys acc w = (Throw e, w').
Proof.
  induction keys as [|k ks IH]; intros acc w [k0 [Hin Hk0]].
  - by apply elem_of_nil in Hin.
  - cbn [getPostsFromKV_loop].
    unfold bind at 1, kv_get_json, bind, kv_request.
    destruct (kv_rejects O (kv_calls w)); [eauto|]. cbn.
    apply elem_of_cons in Hin as [->|Hin].
    + rewrite Hk0. eauto.
    + destruct (kv w !! k) as [[p| |]|] eqn:E; [| |eauto|];
        apply IH; exists k0; split; done.
Qed.

Lemma getPostsFromKV_ok (m : gmap string kv_text) (n t f : nat)
      (o : list (string * DiscordMessage)) (c : list log_line) :
  no_rejects O n -> readable m ->
  getPostsFromKV O (mkWorld m n t f o c)
  = (Ret (stored_of m),
     mkWorld m (S n + length (listing m)) t f o
             (c ++ [LogFetchingKV; LogRetrieved (length (stored_of m))])).
Proof.
  intros Hn Hp. pose proof (proj1 (readable_spec m) Hp) as Hp'. clear Hp.
  rename Hp' into Hp.
  unfold getPostsFromKV, bind at 1, log, try_catch, print. cbn.
  unfold bind at 1, kv_list, bind, kv_request, count_kv_call. cbn.
  rewrite (Hn n) by lia. cbn.
  rewrite getPostsFromKV_loop_ok.
  - cbn. unfold stored_of, listing, print. cbn. rewrite <- app_assoc. cbn.
    do 2 f_equal.
  - intros i Hi. apply Hn. lia.
  - intros k Hk. by apply Hp.
Qed.

(** The listing itself rejects. *)
Lemma getPostsFromKV_unavailable (w : World) :
  kv_rejects O (kv_calls w) = true ->
  getPostsFromKV O w
  = (Ret [], print (ErrFetchingKV KVError) (count_kv_call (print LogFetchingKV w))).
Proof.
  intros H.
  unfold getPostsFromKV, bind at 1, log, try_catch.
  unfold bind at 1, kv_list, bind, kv_request. cbn. rewrite H.
  reflexivity.
Qed.

End Loading.

(** ** Reasoning about awaited calls *)

Lemma bind_Ret {A B} (m : M A) (k : A -> M B) (w w' : World) (a : A) :
  m w = (Ret a, w') -> bind m k w = k a w'.
Proof. unfold bind. by intros ->. Qed.

Lemma bind_log {B} (l : log_line) (k : unit -> M B) (w : World) :
  bind (log l) k w = k tt (print l w).
Proof. reflexivity. Qed.

Ltac fields := cbn [kv kv_calls now_calls fetch_calls outbox console].
Tactic Notation "fields" "in" hyp(H) :=
  cbn [kv kv_calls now_calls fetch_calls outbox console] in H.
Ltac step_log := rewrite bind_log; unfold print; fields.

(** ** Persisting and notifying *)

Section Persisting.

Variable O : Outside.

Lemma storePostInKV_eq (post : RedditPost.t) (m : gmap string kv_text) (n t f : nat)
      (o : list (string * DiscordMessage)) (c : list log_line) :
  storePostInKV O post (mkWorld m n t f o c)
  = (Ret tt,
     if kv_rejects O n
     then mkWorld m (S n) (S t) f o
                  (c ++ [LogStoring (RedditPost.title post);
                         ErrStore (RedditPost.id post) KVError])
     else mkWorld (<[post_key (RedditPost.id post) :=
                       JsonPost (storedPost_of post (date_now O t))]> m)
                  (S n) (S t) f o
                  (c ++ [LogStoring (RedditPost.title post);
                         LogStored (RedditPost.id post)])).
Proof.
  unfold storePostInKV, try_catch, kv_put, bind, kv_request, Date_now, log,
    print, count_now_call, count_kv_call, set_kv. cbn.
  destruct (kv_rejects O n); cbn; by rewrite <- app_assoc.
Qed.

(** The notifier returns normally in every case, touches neither the
    namespace nor the clock, and issues the requests of [notification_of]. *)
Lemma sendDiscordNotification_spec (post : RedditPost.t) (env : Env)
      (m : gmap string kv_text) (n t f : nat)
      (o : list (string * DiscordMessage)) (c : list log_line) :
  exists lines,
    sendDiscordNotification O post env (mkWorld m n t f o c)
    = (Ret tt,
       mkWorld m n t (f + length (notification_of env post))
               (o ++ notification_of env post) (c ++ lines)).
Proof.
  unfold sendDiscordNotification, notification_of, try_catch, bind, toISOString,
    fetch_webhook, response_text, log, print, post_request, ret, throw.
  destruct (webhook_configured env) as [webhookUrl|]; cbn.
  - destruct (Date_valid _); cbn.
    + destruct (webhook_reply O f) as [|response]; cbn.
      * eexists [_; _]. rewrite <- app_assoc. do 2 f_equal. lia.
      * destruct (ok response); cbn.
        -- eexists [_; _]. rewrite <- app_assoc. do 2 f_equal. lia.
        -- destruct (body_text response); cbn.
           ++ eexists [_; _; _]. rewrite <- !app_assoc. cbn. do 2 f_equal. lia.
           ++ eexists [_; _]. rewrite <- app_assoc. do 2 f_equal. lia.
    + exists [ErrSending RangeError]. by rewrite app_nil_r, Nat.add_0_r.
  - exists [LogNoWebhook]. by rewrite app_nil_r, Nat.add_0_r.
Qed.

(** The per-post loop of [scheduled] never throws; it leaves the namespace
    of [stored_after] and has issued the notifications of every post. *)
Lemma scheduled_loop_spec (env : Env) (newPosts : list RedditPost.t) :
  forall m n t f o c,
  exists lines,
    scheduled_loop O env newPosts (mkWorld m n t f o c)
    = (Ret tt,
       mkWorld (stored_after O newPosts n t m)
               (n + length newPosts) (t + length newPosts)
               (f + length (flat_map (notification_of env) newPosts))
               (o ++ flat_map (notification_of env) newPosts)
               (c ++ lines)).
Proof.
  induction newPosts as [|post rest IH]; intros m n t f o c.
  - exists []. cbn. unfold ret. by rewrite !app_nil_r, !Nat.add_0_r.
  - cbn [scheduled_loop stored_after flat_map].
    do 2 step_log.
    erewrite bind_Ret by apply storePostInKV_eq.
    set (w1 := if kv_rejects O n then _ else _).
    assert (exists c1,
               w1 = mkWorld (if kv_rejects O n then m
                     else <[post_key (RedditPost.id post) :=
                              JsonPost (storedPost_of post (date_now O t))]> m) (S n) (S t) f o (c ++ c1))
      as (c1 & ->).
    { subst w1. destruct (kv_rejects O n); eexists [_; _; _; _];
        rewrite <- !app_assoc; reflexivity. }
    set (m1 := if kv_rejects O n then _ else _).
    destruct (sendDiscordNotification_spec post env m1 (S n) (S t) f o (c ++ c1))
      as [c2 Hsend].
    erewrite bind_Ret by apply Hsend.
    destruct (IH m1 (S n) (S t) (f + length (notification_of env post))
                 (o ++ notification_of env post) ((c ++ c1) ++ c2)) as [c3 ->].
    exists (c1 ++ c2 ++ c3). rewrite length_app, <- !app_assoc. cbn [length].
    subst m1. do 2 f_equal; lia.
Qed.

End Persisting.

(** ** Sweeping *)

Lemma swept_lookup (cutoffTime : Z) (keys : list string) :
  forall (m : gmap string kv_text) (k : string),
    swept cutoffTime keys m !! k
    = if decide (k ∈ keys) then m !! k ≫= sweep_value cutoffTime else m !! k.
Proof.
  induction keys as [|k0 rest IH]; intros m k.
  - cbn. by rewrite decide_False by apply not_elem_of_nil.
  - cbn [swept]. unfold json_post_at.
    destruct (decide (k = k0)) as [->|Hne].
    + rewrite (decide_True (P := k0 ∈ k0 :: rest)) by left.
      destruct (m !! k0) as [[p| |]|] eqn:E; cbn.
      * destruct (StoredPost.stored_at p <? cutoffTime)%Z eqn:Hold.
        -- rewrite IH, lookup_delete_eq. by destruct (decide _).
        -- rewrite IH, E. cbn. rewrite Hold. by destruct (decide _).
      * rewrite IH, E. by destruct (decide _).
      * rewrite IH, E. by destruct (decide _).
      * rewrite IH, E. by destruct (decide _).
    + assert (Hiff : k ∈ k0 :: rest <-> k ∈ rest).
      { rewrite elem_of_cons. tauto. }
      assert (Hgoal : forall m', m' !! k = m !! k ->
                swept cutoffTime rest m' !! k
                = if decide (k ∈ k0 :: rest) then m !! k ≫= sweep_value cutoffTime
                  else m !! k).
      { intros m' Hm'. rewrite IH, Hm'.
        destruct (decide (k ∈ rest)), (decide (k ∈ k0 :: rest)); tauto || done. }
      destruct (m !! k0) as [[p| |]|]; [|by apply Hgoal..].
      destruct (StoredPost.stored_at p <? cutoffTime)%Z; [|by apply Hgoal].
      apply Hgoal. by rewrite lookup_delete_ne.
Qed.

Section Sweeping.

Variable O : Outside.

(** A sweep in which no request fails and every value parses visits all its
    keys, leaves the namespace [swept], and counts one for each key it
    removed. *)
Lemma cleanupOldPosts_loop_ok (cutoffTime : Z) (keys : list string) :
  forall deletedCount m n t f o c,
    no_rejects O n ->
    (forall k, k ∈ keys -> m !! k <> Some NotJson) ->
    exists n' lines deletedCount',
      cleanupOldPosts_loop O cutoffTime keys deletedCount (mkWorld m n t f o c)
      = (Ret deletedCount',
         mkWorld (swept cutoffTime keys m) n' t f o (c ++ lines))
      /\ n <= n'
      /\ deletedCount' + size (swept cutoffTime keys m) = deletedCount + size m.
Proof.
  induction keys as [|k ks IH]; intros cnt m n t f o c Hn Hp.
  - exists n, [], cnt. cbn. unfold ret. by rewrite app_nil_r.
  - assert (Hk : m !! k <> Some NotJson) by (apply Hp; left).
    assert (Hks : forall k', k' ∈ ks -> m !! k' <> Some NotJson)
      by (intros k' Hin; apply Hp; by right).
    assert (Hn1 : no_rejects O (S n)) by (intros i Hi; apply Hn; lia).
    assert (Hn2 : no_rejects O (S (S n))) by (intros i Hi; apply Hn; lia).
    cbn [cleanupOldPosts_loop swept].
    unfold kv_get_json, kv_delete, kv_request, log, print, count_kv_call,
      set_kv, bind. fields.
    rewrite (Hn n) by lia. fields. unfold json_post_at.
    destruct (m !! k) as [[p| |]|] eqn:E; [|
      destruct (IH cnt m (S n) t f o c Hn1 Hks) as (n' & l & cnt' & -> & ? & ?);
      exists n', l, cnt'; split_and!; [done|lia|done] ..|done|
      destruct (IH cnt m (S n) t f o c Hn1 Hks) as (n' & l & cnt' & -> & ? & ?);
      exists n', l, cnt'; split_and!; [done|lia|done] ].
    destruct (StoredPost.stored_at p <? cutoffTime)%Z.
    + fields. rewrite (Hn (S n)) by lia. fields.
      destruct (IH (S cnt) (delete k m) (S (S n)) t f o
                   (c ++ [LogDeleted (StoredPost.title p)]) Hn2)
        as (n' & l & cnt' & -> & ? & Hsz).
      { intros k' Hin. rewrite lookup_delete. case_decide; [done|by apply Hks]. }
      exists n', (LogDeleted (StoredPost.title p) :: l), cnt'.
      split_and!; [by rewrite <- app_assoc|lia|].
      rewrite Hsz. rewrite map_size_delete, E. cbn.
      assert (size m <> 0); [|lia].
      intros Hz. apply map_size_empty_iff in Hz. by rewrite Hz, lookup_empty in E.
    + destruct (IH cnt m (S n) t f o c Hn1 Hks) as (n' & l & cnt' & -> & ? & ?).
      exists n', l, cnt'. split_and!; [done|lia|done].
Qed.

(** Whatever fails, the loop touches only the namespace and the request
    counter, makes no request after one that rejected, and removes nothing
    but records of its keys that are strictly older than the cutoff. *)
Lemma cleanupOldPosts_loop_any (cutoffTime : Z) (keys : list string) :
  forall deletedCount w r w',
    cleanupOldPosts_loop O cutoffTime keys deletedCount w = (r, w') ->
    now_calls w' = now_calls w /\ fetch_calls w' = fetch_calls w /\
    outbox w' = outbox w /\
    kv_calls w <= kv_calls w' /\
    (forall n, kv_calls w <= n -> kv_rejects O n = true -> kv_calls w' <= S n) /\
    (forall k,
        kv w' !! k = kv w !! k \/
        (kv w' !! k = None /\
         exists p, kv w !! k = Some (JsonPost p) /\
                   (StoredPost.stored_at p < cutoffTime)%Z /\ k ∈ keys)).
Proof.
  induction keys as [|k ks IH]; intros cnt [m n t f o c] r w' H.
  - cbn in H. unfold ret in H. simplify_eq. fields.
    split_and!; try done; [intros; lia|by left].
  - cbn [cleanupOldPosts_loop] in H.
    unfold kv_get_json, kv_delete, kv_request, log, print, count_kv_call,
      set_kv, bind in H. fields in H. fields.
    assert (Hstop : forall w0,
               S n <= kv_calls w0 ->
               (forall i, S n <= i -> kv_rejects O i = true -> kv_calls w0 <= S i) ->
               kv_rejects O n = false ->
               forall i, n <= i -> kv_rejects O i = true -> kv_calls w0 <= S i).
    { intros w0 _ Hw0 Hn i Hi Hr. apply Hw0; [|done].
      destruct (decide (i = n)) as [->|]; [congruence|lia]. }
    assert (Hkeep : forall w0,
               now_calls w0 = t /\ fetch_calls w0 = f /\ outbox w0 = o /\
               S n <= kv_calls w0 /\
               (forall i, S n <= i -> kv_rejects O i = true -> kv_calls w0 <= S i) /\
               (forall k0,
                   kv w0 !! k0 = m !! k0 \/
                   (kv w0 !! k0 = None /\
                    exists p, m !! k0 = Some (JsonPost p) /\
                              (StoredPost.stored_at p < cutoffTime)%Z /\ k0 ∈ ks)) ->
               kv_rejects O n = false ->
               now_calls w0 = t /\ fetch_calls w0 = f /\ outbox w0 = o /\
               n <= kv_calls w0 /\
               (forall i, n <= i -> kv_rejects O i = true -> kv_calls w0 <= S i) /\
               (forall k0,
                   kv w0 !! k0 = m !! k0 \/
                   (kv w0 !! k0 = None /\
                    exists p, m !! k0 = Some (JsonPost p) /\
                              (StoredPost.stored_at p < cutoffTime)%Z /\ k0 ∈ k :: ks))).
    { intros w0 (? & ? & ? & ? & Hs & Hk) Hn.
      split_and!; try done; try lia.
      { by apply Hstop. }
      intros k0. destruct (Hk k0) as [?|(? & p & ? & ? & ?)]; [by left|right].
      split; [done|]. exists p. split_and!; [done..|by right]. }
    revert H. destruct (kv_rejects O n) eqn:R0; fields.
    { intros H. simplify_eq. fields. split_and!; try done; try lia. by left. }
    destruct (m !! k) as [[p| |]|] eqn:E; fields.
    + destruct (StoredPost.stored_at p <? cutoffTime)%Z eqn:Hold; fields.
      * destruct (kv_rejects O (S n)) eqn:R1; fields; intros H.
        { simplify_eq. fields. split_and!; try done; try lia; try (by left).
          intros i Hi Hr. destruct (decide (i = n)) as [->|]; [congruence|lia]. }
        apply IH in H. fields in H.
        destruct H as (? & ? & ? & ? & Hs & Hk).
        split_and!; try done; try lia.
        -- intros i Hi Hr. apply Hs; [|done].
           destruct (decide (i = n)) as [->|]; [congruence|].
           destruct (decide (i = S n)) as [->|]; [congruence|lia].
        -- intros k0. apply Z.ltb_lt in Hold.
           destruct (decide (k0 = k)) as [->|Hne].
           ++ right. split.
              ** destruct (Hk k) as [Hk'|[Hk' _]]; [|done].
                 by rewrite Hk', lookup_delete_eq.
              ** exists p. split_and!; [done..|by left].
           ++ destruct (Hk k0) as [Hk'|(Hk' & q & Hq & ? & ?)].
              ** left. by rewrite Hk', lookup_delete_ne.
              ** right. split; [done|]. exists q.
                 rewrite lookup_delete_ne in Hq by done. split_and!; [done..|by right].
      * intros H. apply IH in H. fields in H. by apply Hkeep.
    + intros H. apply IH in H. fields in H. by apply Hkeep.
    + intros H. simplify_eq. fields. split_and!; try done; try lia. by left.
    + intros H. apply IH in H. fields in H. by apply Hkeep.
Qed.

Lemma cleanupOldPosts_ok (maxAgeDays : Z) (m : gmap string kv_text) (n t f : nat)
      (o : list (string * DiscordMessage)) (c : list log_line) :
  no_rejects O n -> readable m ->
  let m' := swept (cutoffTime_of (date_now O t) maxAgeDays) (listing m) m in
  exists n' lines,
    cleanupOldPosts O maxAgeDays (mkWorld m n t f o c)
    = (Ret tt,
       mkWorld m' n' (S t) f o
               (c ++ LogCleaning maxAgeDays :: lines
                  ++ [LogCleanupComplete (size m - size m')]))
    /\ n <= n'.
Proof.
  intros Hn Hp m'. pose proof (proj1 (readable_spec m) Hp) as Hp'. clear Hp.
  rename Hp' into Hp.
  assert (Hn1 : no_rejects O (S n)) by (intros i Hi; apply Hn; lia).
  destruct (cleanupOldPosts_loop_ok (cutoffTime_of (date_now O t) maxAgeDays)
              (listing m) 0 m (S n) (S t) f o (c ++ [LogCleaning maxAgeDays]) Hn1)
    as (n' & lines & cnt & Hloop & Hle & Hsz).
  { intros k Hk. by apply Hp. }
  exists n', lines. split; [|lia].
  unfold cleanupOldPosts, Date_now, try_catch, kv_list, kv_request, log, print,
    count_kv_call, count_now_call, bind. fields.
  rewrite (Hn n) by lia. fields.
  unfold listing in Hloop. rewrite Hloop. fields.
  fold (listing m). rewrite <- !app_assoc. cbn [app]. subst m'.
  replace cnt with (size m - size (swept (cutoffTime_of (date_now O t) maxAgeDays)
                                         (listing m) m)) by lia.
  reflexivity.
Qed.

(** Whatever fails, a sweep returns normally to its caller. *)
Lemma cleanupOldPosts_any (maxAgeDays : Z) (w : World) :
  exists w',
    cleanupOldPosts O maxAgeDays w = (Ret tt, w') /\
    now_calls w' = S (now_calls w) /\ fetch_calls w' = fetch_calls w /\
    outbox w' = outbox w /\
    kv_calls w <= kv_calls w' /\
    (forall n, kv_calls w <= n -> kv_rejects O n = true -> kv_calls w' <= S n) /\
    (forall k,
        kv w' !! k = kv w !! k \/
        (kv w' !! k = None /\
         exists p, kv w !! k = Some (JsonPost p) /\
                   (StoredPost.stored_at p
                    < cutoffTime_of (date_now O (now_calls w)) maxAgeDays)%Z /\
                   String.prefix "post:" k = true)).
Proof.
  destruct w as [m n t f o c].
  unfold cleanupOldPosts, Date_now, try_catch, kv_list, kv_request, log, print,
    count_kv_call, count_now_call, bind. fields.
  destruct (kv_rejects O n) eqn:R0; fields.
  { eexists. split; [reflexivity|]. fields.
    split_and!; try done; try lia. by left. }
  destruct (cleanupOldPosts_loop O _ _ _ _) as [r w1] eqn:Hloop.
  apply cleanupOldPosts_loop_any in Hloop. fields in Hloop.
  destruct Hloop as (Ht & Hf & Ho & Hle & Hs & Hk).
  assert (Hgoal : forall w', now_calls w' = now_calls w1 -> fetch_calls w' = fetch_calls w1 ->
             outbox w' = outbox w1 -> kv_calls w' = kv_calls w1 -> kv w' = kv w1 ->
             now_calls w' = S t /\ fetch_calls w' = f /\ outbox w' = o /\
             n <= kv_calls w' /\
             (forall i, n <= i -> kv_rejects O i = true -> kv_calls w' <= S i) /\
             (forall k,
                 kv w' !! k = m !! k \/
                 (kv w' !! k = None /\
                  exists p, m !! k = Some (JsonPost p) /\
                            (StoredPost.stored_at p
                             < cutoffTime_of (date_now O t) maxAgeDays)%Z /\
                            String.prefix "post:" k = true))).
  { intros w' -> -> -> -> ->. split_and!; try done; try lia.
    - intros i Hi Hr. apply Hs; [|done].
      destruct (decide (i = n)) as [->|]; [congruence|lia].
    - intros k. destruct (Hk k) as [?|(? & p & ? & ? & Hin)]; [by left|right].
      split; [done|]. exists p. split_and!; [done..|].
      by apply elem_of_listing_1 in Hin as [? _]. }
  destruct r as [cnt|e]; fields; (eexists; split; [reflexivity|]);
    by apply Hgoal.
Qed.



End Sweeping.

(** * The claims *)

(** ** Retention sweeper *)

(** C3, as stated, fails for "every stored record": the sweep sees one
    page of the listing. Of 1001 records, all stored one millisecond before
    the cutoff, a sweep in which nothing fails deletes the 1000 of the page
    and retains the last one, [post:999]. *)
Lemma C3_record_beyond_first_page_kept :
  let m := Sample.crowd 1001 2407999999 in
  let w' := snd (cleanupOldPosts Sample.quiet 30 (Sample.world m)) in
  cutoffTime_of (date_now Sample.quiet 0) 30 = 2408000000%Z /\
  size m = 1001 /\
  m !! post_key "999"
  = Some (Sample.record (Sample.post "999" 1700000000) 2407999999) /\
  kv w' !! post_key "999"
  = Some (Sample.record (Sample.post "999" 1700000000) 2407999999) /\
  size (kv w') = 1 /\
  last (console w') = Some (LogCleanupComplete 1000).
Proof. vm_compute. done. Qed.

(** C3, amended. The sweeper's cutoff is the clock reading minus
    [maxAgeDays] times 86,400,000 ms, which for 30 days is the reading minus
    2,592,000,000 ms. A record stored one millisecond after the cutoff is
    retained, whatever happens. A record stored one millisecond before the
    cutoff is deleted when its key is on the listed page, the store requests
    succeed and the listed values are JSON; with at most 1000 keys under
    [post:] every such key is on the page. *)
Theorem C3_retention_boundary (O : Outside) (maxAgeDays : Z) (w : World)
        (k : string) (p : StoredPost.t) :
  let now := date_now O (now_calls w) in
  let cutoff := cutoffTime_of now maxAgeDays in
  let w' := snd (cleanupOldPosts O maxAgeDays w) in
  kv w !! k = Some (JsonPost p) ->
  cutoff = (now - maxAgeDays * 86400000)%Z /\
  cutoffTime_of now 30 = (now - 2592000000)%Z /\
  (StoredPost.stored_at p = (cutoff + 1)%Z -> kv w' !! k = Some (JsonPost p)) /\
  (no_rejects O (kv_calls w) -> readable (kv w) -> k ∈ listing (kv w) ->
   StoredPost.stored_at p = (cutoff - 1)%Z -> kv w' !! k = None) /\
  listing (kv w) = take 1000 (list_keys "post:" (kv w)) /\
  (one_page (kv w) -> String.prefix "post:" k = true -> k ∈ listing (kv w)).
Proof.
  intros now cutoff w' Hv.
  split; [unfold cutoff, cutoffTime_of, maxAgeMs_of; lia|].
  split; [unfold cutoffTime_of, maxAgeMs_of; lia|].
  split_and!.
  - intros Hat.
    destruct (cleanupOldPosts_any O maxAgeDays w) as (w1 & Heq & _ & _ & _ & _ & _ & Hk).
    subst w'. rewrite Heq. cbn [snd].
    destruct (Hk k) as [->|(_ & q & Hq & Hold & _)]; [done|].
    rewrite Hv in Hq. simplify_eq. fold now in Hold. fold cutoff in Hold. lia.
  - intros Hn Hp Hin Hat.
    destruct w as [m n t f o c]. cbn [kv kv_calls now_calls] in *.
    destruct (cleanupOldPosts_ok O maxAgeDays m n t f o c Hn Hp) as (n' & l & Heq & _).
    subst w'. rewrite Heq. cbn [snd kv].
    rewrite swept_lookup, decide_True, Hv by done. cbn. fold now. fold cutoff.
    by rewrite (proj2 (Z.ltb_lt _ _)) by lia.
  - reflexivity.
  - intros Hone Hpre. apply elem_of_listing; [done|]. by rewrite Hv.
Qed.

Lemma C3_retention_boundary_witness :
  kv (snd (cleanupOldPosts Sample.quiet 30 (Sample.world Sample.boundary)))
     !! post_key "p1" = None.
Proof.
  refine (proj1 (proj2 (proj2 (proj2
    (C3_retention_boundary Sample.quiet 30 (Sample.world Sample.boundary)
       (post_key "p1") (storedPost_of Sample.p1 2407999999) _)))) _ _ _ _).
  - reflexivity.
  - intros n _. reflexivity.
  - vm_compute. exact I.
  - apply (bool_decide_unpack _). vm_compute. exact I.
  - reflexivity.
Defined.

(** C10. The age test is strict, whatever fails during the sweep: a key
    that the sweep removed held a listed record stored strictly before the
    cutoff; a record stored exactly at the cutoff is retained; and a key
    whose value reads as absent is never deleted. *)
Theorem C10_strict_age_test (O : Outside) (maxAgeDays : Z) (w : World)
        (k : string) (v : kv_text) :
  let cutoff := cutoffTime_of (date_now O (now_calls w)) maxAgeDays in
  let w' := snd (cleanupOldPosts O maxAgeDays w) in
  kv w !! k = Some v ->
  (kv w' !! k = None ->
   exists p, v = JsonPost p /\ (StoredPost.stored_at p < cutoff)%Z /\
             String.prefix "post:" k = true) /\
  (forall p, v = JsonPost p -> StoredPost.stored_at p = cutoff ->
             kv w' !! k = Some v) /\
  (v = JsonNull -> kv w' !! k = Some v).
Proof.
  intros cutoff w' Hv.
  destruct (cleanupOldPosts_any O maxAgeDays w) as (w1 & Heq & _ & _ & _ & _ & _ & Hk).
  subst w'. rewrite Heq. cbn [snd].
  destruct (Hk k) as [Hsame|(Hnone & p & Hp & Hold & Hpre)].
  - rewrite Hsame, Hv. split_and!; done.
  - rewrite Hv in Hp. simplify_eq. fold cutoff in Hold. split_and!.
    + intros _. by exists p.
    + intros q ? Hq. simplify_eq. lia.
    + done.
Qed.

Lemma C10_strict_age_test_witness :
  kv (snd (cleanupOldPosts Sample.quiet 30 (Sample.world Sample.boundary)))
     !! post_key "p3" = Some (Sample.record Sample.p3 2408000000).
Proof.
  refine (proj1 (proj2
    (C10_strict_age_test Sample.quiet 30 (Sample.world Sample.boundary)
       (post_key "p3") (Sample.record Sample.p3 2408000000) _))
    (storedPost_of Sample.p3 2408000000) _ _); reflexivity.
Defined.







(** A value that is not JSON ends the sweep as a rejected request does.
    When it is listed last, after four old records, the four are deleted and
    the read that fails is the tenth and last request. When it is listed
    second, only the record listed before it is deleted. *)
Example sweep_stops_at_corrupt_value :
  let m := <[post_key "p2" := NotJson]> (Sample.crowd 4 100) in
  let w' := snd (cleanupOldPosts_default Sample.quiet (Sample.world m)) in
  listing m = [post_key "0"; post_key "1"; post_key "2"; post_key "3"; post_key "p2"] /\
  listing (<[post_key "1" := NotJson]> m)
  = [post_key "0"; post_key "1"; post_key "2"; post_key "3"; post_key "p2"] /\
  kv_calls w' = 10 /\ size (kv w') = 1 /\
  console (snd (cleanupOldPosts_default Sample.quiet
                  (Sample.world (<[post_key "1" := NotJson]> m))))
  = [LogCleaning 30; LogDeleted "title 0"; ErrCleanup JsonSyntaxError].
Proof. vm_compute. done. Qed.

(** ** Record store: loading *)

Lemma json_post_at_Some (m : gmap string kv_text) (k : string) (p : StoredPost.t) :
  json_post_at m k = Some p <-> m !! k = Some (JsonPost p).
Proof.
  unfold json_post_at. destruct (m !! k) as [[q| |]|]; naive_solver.
Qed.

(** A record that a listing finds is in the namespace. *)
Lemma elem_of_stored_of_1 (m : gmap string kv_text) (p : StoredPost.t) :
  p ∈ stored_of m ->
  exists k, String.prefix "post:" k = true /\ m !! k = Some (JsonPost p).
Proof.
  unfold stored_of. rewrite list_elem_of_omap.
  intros (k & Hin & Hk). exists k. apply elem_of_listing_1 in Hin as [Hp _].
  split; [done|]. by apply json_post_at_Some.
Qed.

(** When the keys fit on one page, a listing finds every record. *)
Lemma elem_of_stored_of (m : gmap string kv_text) (p : StoredPost.t) :
  one_page m ->
  p ∈ stored_of m <->
  exists k, String.prefix "post:" k = true /\ m !! k = Some (JsonPost p).
Proof.
  intros Hone. split; [apply elem_of_stored_of_1|].
  intros (k & Hp & Hk). unfold stored_of. rewrite list_elem_of_omap.
  exists k. split.
  - apply elem_of_listing; [done|]. by rewrite Hk.
  - by apply json_post_at_Some.
Qed.

Lemma forallb_false_witness {A} (f : A -> bool) (l : list A) :
  forallb f l = false -> exists x, x ∈ l /\ f x = false.
Proof.
  induction l as [|a l IH]; [done|]. cbn.
  destruct (f a) eqn:E; cbn.
  - intros (x & ? & ?)%IH. exists x. split; [by right|done].
  - intros _. exists a. split; [by left|done].
Qed.






(** The key [post:gone] is listed but contributes no record. *)
Example loadAll_skips_absent_example :
  listing Sample.boundary
  = [post_key "gone"; post_key "p1"; post_key "p2"; post_key "p3"] /\
  length (stored_of Sample.boundary) = 3.
Proof. by vm_compute. Qed.

(** Of 1001 records a load returns the 1000 of the listed page; the record
    under the last key, [post:999], is not among them. *)
Example loadAll_reads_one_page :
  let m := Sample.crowd 1001 100 in
  let missed := storedPost_of (Sample.post "999" 1700000000) 100 in
  fst (getPostsFromKV Sample.quiet (Sample.world m)) = Ret (stored_of m) /\
  size m = 1001 /\ length (stored_of m) = 1000 /\
  m !! post_key "999" = Some (JsonPost missed) /\
  existsb (fun p => String.eqb (StoredPost.post_id p) "999") (stored_of m) = false.
Proof.
  intros m missed. split; [|by vm_compute].
  destruct (Sample.world m) as [m0 n t f o c] eqn:E. unfold Sample.world in E.
  simplify_eq. rewrite getPostsFromKV_ok; [done|by intros n _|].
  vm_compute. exact I.
Qed.

(** ** Notifier *)

(** C8. [sendDiscordNotification] returns normally for every post and
    every behaviour of the webhook; without a configured endpoint (unset or
    empty) it only logs, issuing no request; otherwise it issues at most the
    one request of [notification_of], whatever the reply. *)
Theorem C8_notify_never_raises (O : Outside) (post : RedditPost.t) (env : Env)
        (w : World) :
  let r := sendDiscordNotification O post env w in
  fst r = Ret tt /\
  (DISCORD_WEBHOOK_URL env = None \/ DISCORD_WEBHOOK_URL env = Some "" ->
   r = (Ret tt, print LogNoWebhook w)) /\
  outbox (snd r) = outbox w ++ notification_of env post /\
  length (notification_of env post) <= 1 /\
  kv (snd r) = kv w.
Proof.
  intros r. subst r. destruct w as [m n t f o c].
  destruct (sendDiscordNotification_spec O post env m n t f o c) as [lines Heq].
  split_and!.
  - by rewrite Heq.
  - intros H. unfold sendDiscordNotification, webhook_configured.
    by destruct H as [-> | ->].
  - by rewrite Heq.
  - unfold notification_of. destruct (webhook_configured env); [|cbn; lia].
    destruct (Date_valid _); cbn; lia.
  - by rewrite Heq.
Qed.

Lemma C8_notify_never_raises_witness :
  sendDiscordNotification Sample.quiet Sample.p1 Sample.env_no_webhook (Sample.world ∅)
  = (Ret tt, print LogNoWebhook (Sample.world ∅)).
Proof.
  refine (proj1 (proj2 (C8_notify_never_raises Sample.quiet Sample.p1
                          Sample.env_no_webhook (Sample.world ∅))) _).
  left. reflexivity.
Defined.

(** ** Record store: saving *)

Section Saving.

Variable O : Outside.

(** A key after the loop of saves: untouched, or holding the record of one
    of the posts, written by a request that did not reject. *)
Lemma stored_after_lookup (posts : list RedditPost.t) :
  forall n t (m : gmap string kv_text) (k : string),
    stored_after O posts n t m !! k = m !! k \/
    exists i x,
      posts !! i = Some x /\ k = post_key (RedditPost.id x) /\
      kv_rejects O (n + i) = false /\
      stored_after O posts n t m !! k
      = Some (JsonPost (storedPost_of x (date_now O (t + i)))).
Proof.
  induction posts as [|y rest IH]; intros n t m k; [by left|].
  cbn [stored_after].
  set (m1 := if kv_rejects O n then m else _).
  destruct (IH (S n) (S t) m1 k) as [Hsame|(i & x & Hi & Hk & Hr & Hv)].
  - rewrite Hsame. subst m1. destruct (kv_rejects O n) eqn:R; [by left|].
    destruct (decide (k = post_key (RedditPost.id y))) as [->|Hne].
    + right. exists 0, y. rewrite !Nat.add_0_r.
      split_and!; [done..|]. by rewrite lookup_insert_eq.
    + left. by rewrite lookup_insert_ne.
  - right. exists (S i), x.
    replace (n + S i) with (S n + i) by lia.
    replace (t + S i) with (S t + i) by lia. done.
Qed.

Lemma stored_after_untouched (posts : list RedditPost.t) n t
      (m : gmap string kv_text) (k : string) :
  (forall x, x ∈ posts -> k <> post_key (RedditPost.id x)) ->
  stored_after O posts n t m !! k = m !! k.
Proof.
  intros H. destruct (stored_after_lookup posts n t m k)
    as [?|(i & x & Hi & Hk & _)]; [done|].
  exfalso. apply (H x); [|done]. by apply (list_elem_of_lookup_2 posts i x).
Qed.

(** With distinct identifiers, the post at position [i] whose write went
    through is found under its key, stamped with the reading of its turn. *)
Lemma stored_after_written (posts : list RedditPost.t) :
  forall i x n t (m : gmap string kv_text),
    NoDup (RedditPost.id <$> posts) ->
    posts !! i = Some x ->
    kv_rejects O (n + i) = false ->
    stored_after O posts n t m !! post_key (RedditPost.id x)
    = Some (JsonPost (storedPost_of x (date_now O (t + i)))).
Proof.
  induction posts as [|y rest IH]; intros i x n t m Hnd Hi Hr; [done|].
  cbn [fmap list_fmap] in Hnd. apply NoDup_cons in Hnd as [Hy Hnd].
  cbn [stored_after]. destruct i as [|i].
  - cbn in Hi. simplify_eq. rewrite Nat.add_0_r in *. rewrite Hr.
    rewrite stored_after_untouched; [by rewrite lookup_insert_eq|].
    intros z Hz Heq%post_key_inj. apply Hy. rewrite Heq.
    by apply list_elem_of_fmap_2.
  - cbn in Hi.
    replace (n + S i) with (S n + i) in Hr by lia.
    replace (t + S i) with (S t + i) by lia. by apply IH.
Qed.

(** With distinct identifiers, a post whose write rejected leaves its key
    as it was. *)
Lemma stored_after_rejected (posts : list RedditPost.t) :
  forall i x n t (m : gmap string kv_text),
    NoDup (RedditPost.id <$> posts) ->
    posts !! i = Some x ->
    kv_rejects O (n + i) = true ->
    stored_after O posts n t m !! post_key (RedditPost.id x)
    = m !! post_key (RedditPost.id x).
Proof.
  intros i x n t m Hnd Hi Hr.
  destruct (stored_after_lookup posts n t m (post_key (RedditPost.id x)))
    as [?|(j & y & Hj & Hk%post_key_inj & Hrj & _)]; [done|].
  assert (i = j); [|congruence].
  eapply NoDup_lookup; [exact Hnd| |].
  - rewrite list_lookup_fmap, Hi. done.
  - rewrite list_lookup_fmap, Hj. cbn. by rewrite Hk.
Qed.

End Saving.

(** C9. The per-post loop never aborts. With posts of distinct identifiers,
    every post whose write went through is stored under its key at the end
    of the loop, wherever other writes failed before or after it; a post
    whose write failed leaves its key as it was; and every post is notified
    in order, whatever the writes and the earlier notifications did, so a
    failed notification undoes no write and stops no later post. *)
Theorem C9_partial_failure_isolation (O : Outside) (env : Env)
        (newPosts : list RedditPost.t) (w : World) :
  let r := scheduled_loop O env newPosts w in
  NoDup (RedditPost.id <$> newPosts) ->
  fst r = Ret tt /\
  (forall i x, newPosts !! i = Some x ->
               kv_rejects O (kv_calls w + i) = false ->
               kv (snd r) !! post_key (RedditPost.id x)
               = Some (JsonPost (storedPost_of x (date_now O (now_calls w + i))))) /\
  (forall i x, newPosts !! i = Some x ->
               kv_rejects O (kv_calls w + i) = true ->
               kv (snd r) !! post_key (RedditPost.id x)
               = kv w !! post_key (RedditPost.id x)) /\
  outbox (snd r) = outbox w ++ flat_map (notification_of env) newPosts.
Proof.
  intros r Hnd. subst r. destruct w as [m n t f o c].
  destruct (scheduled_loop_spec O env newPosts m n t f o c) as [lines ->].
  cbn [fst snd kv kv_calls now_calls outbox]. split_and!; [done| | |done].
  - intros i x Hi Hr. by apply stored_after_written.
  - intros i x Hi Hr. by apply (stored_after_rejected O newPosts i).
Qed.

Lemma C9_partial_failure_isolation_witness :
  let r := scheduled_loop (Sample.rejecting 1) Sample.env
                          [Sample.p1; Sample.p2; Sample.p3] (Sample.world ∅) in
  fst r = Ret tt /\
  kv (snd r) !! post_key "p1" = Some (Sample.record Sample.p1 5000000000) /\
  kv (snd r) !! post_key "p2" = None /\
  kv (snd r) !! post_key "p3" = Some (Sample.record Sample.p3 5000000002) /\
  length (outbox (snd r)) = 3.
Proof.
  intros r.
  destruct (C9_partial_failure_isolation (Sample.rejecting 1) Sample.env
              [Sample.p1; Sample.p2; Sample.p3] (Sample.world ∅))
    as (Hret & Hok & Hfail & Hout).
  { apply (bool_decide_unpack _). vm_compute. exact I. }
  split_and!.
  - exact Hret.
  - exact (Hok 0 Sample.p1 eq_refl eq_refl).
  - exact (Hfail 1 Sample.p2 eq_refl eq_refl).
  - exact (Hok 2 Sample.p3 eq_refl eq_refl).
  - subst r. rewrite Hout. reflexivity.
Defined.





(** Both saves write to one key: the namespace has gained one key, not
    two, and holds the second stamp. *)
Example save_twice_example :
  let w1 := snd (storePostInKV Sample.quiet Sample.p3 (Sample.world Sample.two_old)) in
  let w2 := snd (storePostInKV Sample.quiet Sample.p3 w1) in
  listing (kv w2) = ["post:p1"; "post:p2"; "post:p3"] /\
  kv w1 !! "post:p3" = Some (Sample.record Sample.p3 5000000000) /\
  kv w2 !! "post:p3" = Some (Sample.record Sample.p3 5000000001).
Proof. by vm_compute. Qed.

(** ** Ingest *)

Lemma newPosts_of_nil (posts : list RedditPost.t) : newPosts_of posts [] = posts.
Proof.
  unfold newPosts_of. induction posts as [|x rest IH]; [done|].
  cbn in *. by rewrite IH.
Qed.

Lemma known_iff (stored : list StoredPost.t) (x : RedditPost.t) :
  existsb (fun storedPost =>
             String.eqb (StoredPost.post_id storedPost) (RedditPost.id x)) stored = true
  <-> RedditPost.id x ∈ StoredPost.post_id <$> stored.
Proof.
  rewrite existsb_exists, list_elem_of_fmap. split.
  - intros (p & Hin & Heq). exists p. apply String.eqb_eq in Heq.
    split; [done|]. by apply list_elem_of_In.
  - intros (p & Heq & Hin). exists p. split; [by apply list_elem_of_In|].
    by apply String.eqb_eq.
Qed.

Lemma newPosts_of_spec (posts : list RedditPost.t) (stored : list StoredPost.t) :
  newPosts_of posts stored
  = filter (fun x => RedditPost.id x ∉ StoredPost.post_id <$> stored) posts.
Proof.
  unfold newPosts_of. induction posts as [|x rest IH]; [done|].
  cbn [List.filter]. rewrite filter_cons, IH.
  destruct (existsb _ stored) eqn:E; cbn.
  - apply known_iff in E. by rewrite decide_False by tauto.
  - rewrite decide_True; [done|]. intros H%known_iff. congruence.
Qed.

Lemma newPosts_of_all_known (posts : list RedditPost.t) (stored : list StoredPost.t) :
  (forall x, x ∈ posts -> RedditPost.id x ∈ StoredPost.post_id <$> stored) ->
  newPosts_of posts stored = [].
Proof.
  intros H. rewrite newPosts_of_spec.
  induction posts as [|x rest IH]; [done|].
  rewrite filter_cons, decide_False.
  - apply IH. intros y Hy. apply H. by right.
  - intros Hx. apply Hx, H. by left.
Qed.

Section Ingest.

Variable O : Outside.

(** The ingest run when the store's listing rejects: every fetched post
    goes through the loop. *)
Lemma scheduled_unavailable (cron : string) (env : Env) (posts : list RedditPost.t)
      (w : World) :
  kv_rejects O (kv_calls w) = true ->
  let w0 := print (LogFetched (length posts)) (print (LogCron cron) w) in
  let w1 := print (ErrFetchingKV KVError) (count_kv_call (print LogFetchingKV w0)) in
  scheduled O cron env (Ret posts) w
  = cleanupOldPosts_default O
      (snd (scheduled_loop O env posts
              (print (LogNewCount (length posts)) (print (LogStoredCount 0) w1)))).
Proof.
  intros H w0 w1. unfold scheduled, try_catch.
  rewrite bind_log. rewrite (bind_Ret (settle _) _ _ _ posts eq_refl).
  rewrite bind_log. fold w0.
  rewrite (bind_Ret (getPostsFromKV O) _ w0 w1 [])
    by (apply getPostsFromKV_unavailable; exact H).
  rewrite bind_log. rewrite newPosts_of_nil. rewrite bind_log. cbn [length].
  set (w2 := print _ (print _ w1)).
  destruct w2 as [m n t f o c].
  destruct (scheduled_loop_spec O env posts m n t f o c) as [lines Hloop].
  rewrite (bind_Ret _ _ _ _ tt Hloop). rewrite Hloop. cbn [snd].
  unfold cleanupOldPosts_default.
  by destruct (cleanupOldPosts_any O 30 (mkWorld (stored_after O posts n t m)
       (n + length posts) (t + length posts)
       (f + length (flat_map (notification_of env) posts))
       (o ++ flat_map (notification_of env) posts) (c ++ lines)))
    as (w3 & -> & _).
Qed.

End Ingest.

(** C7. When the listing itself fails, [getPostsFromKV] returns the empty
    sequence instead of raising; the ingest run goes on with every fetched
    post as a new one (all of them enter the store-and-notify loop, then the
    sweep runs) and ends normally. *)
Theorem C7_degrade_open (O : Outside) (cron : string) (env : Env)
        (posts : list RedditPost.t) (w : World) :
  let w0 := print (LogFetched (length posts)) (print (LogCron cron) w) in
  let w1 := print (ErrFetchingKV KVError) (count_kv_call (print LogFetchingKV w0)) in
  kv_rejects O (kv_calls w) = true ->
  getPostsFromKV O w0 = (Ret [], w1) /\
  newPosts_of posts [] = posts /\
  scheduled O cron env (Ret posts) w
  = cleanupOldPosts_default O
      (snd (scheduled_loop O env posts
              (print (LogNewCount (length posts)) (print (LogStoredCount 0) w1)))) /\
  fst (scheduled O cron env (Ret posts) w) = Ret tt.
Proof.
  intros w0 w1 H. split_and!.
  - by apply getPostsFromKV_unavailable.
  - apply newPosts_of_nil.
  - by apply scheduled_unavailable.
  - rewrite scheduled_unavailable by done. unfold cleanupOldPosts_default.
    by destruct (cleanupOldPosts_any O 30
                   (snd (scheduled_loop O env posts
                           (print (LogNewCount (length posts))
                                  (print (LogStoredCount 0)
                                         (print (ErrFetchingKV KVError)
                                                (count_kv_call
                                                   (print LogFetchingKV
                                                      (print (LogFetched (length posts))
                                                             (print (LogCron cron) w))))))))))
      as (w3 & -> & _).
Qed.

Lemma C7_degrade_open_witness :
  fst (scheduled (Sample.rejecting 0) "* * * * *" Sample.env
                 (Ret [Sample.p1; Sample.p2]) (Sample.world Sample.two_old))
  = Ret tt.
Proof.
  refine (proj2 (proj2 (proj2
    (C7_degrade_open (Sample.rejecting 0) "* * * * *" Sample.env
                     [Sample.p1; Sample.p2] (Sample.world Sample.two_old) _)))).
  reflexivity.
Defined.

Section TwoRuns.

Variable O : Outside.

Lemma parsable_stored_after (posts : list RedditPost.t) n t (m : gmap string kv_text) :
  parsable m -> parsable (stored_after O posts n t m).
Proof.
  rewrite !parsable_spec. intros H k Hpre.
  destruct (stored_after_lookup O posts n t m k) as [->|(i & x & _ & _ & _ & ->)];
    [by apply H|done].
Qed.

Lemma parsable_swept (cutoffTime : Z) (keys : list string) (m : gmap string kv_text) :
  parsable m -> parsable (swept cutoffTime keys m).
Proof.
  rewrite !parsable_spec. intros H k Hpre. rewrite swept_lookup.
  specialize (H k Hpre).
  destruct (decide _); [|done].
  destruct (m !! k) as [[p| |]|]; cbn; try done.
  by destruct (_ <? _)%Z.
Qed.

(** The loop of saves adds at most one key for each post, and a sweep adds
    none. *)
Lemma one_page_stored_after (posts : list RedditPost.t) n t (m : gmap string kv_text) :
  room_for (length posts) m -> one_page (stored_after O posts n t m).
Proof.
  rewrite room_for_spec, one_page_spec. revert n t m.
  induction posts as [|x rest IH]; intros n t m; cbn [stored_after length]; [lia|].
  intros H. apply IH.
  destruct (kv_rejects O n); [lia|].
  pose proof (length_list_keys_insert "post:" (post_key (RedditPost.id x))
                (JsonPost (storedPost_of x (date_now O t))) m). lia.
Qed.

Lemma one_page_swept (cutoffTime : Z) (keys : list string) (m : gmap string kv_text) :
  one_page m -> one_page (swept cutoffTime keys m).
Proof.
  rewrite !one_page_spec. intros H.
  etransitivity; [|exact H]. apply length_list_keys_mono.
  intros k. rewrite swept_lookup. destruct (decide _); [|done].
  destruct (m !! k); [eauto|]. by intros [? ?].
Qed.

(** Without rejections every post of the loop ends up with a record under
    its key, written during the loop. *)
Lemma stored_after_has (posts : list RedditPost.t) (x : RedditPost.t) :
  forall n t (m : gmap string kv_text),
    no_rejects O n -> x ∈ posts ->
    exists i y,
      i < length posts /\ RedditPost.id y = RedditPost.id x /\
      stored_after O posts n t m !! post_key (RedditPost.id x)
      = Some (JsonPost (storedPost_of y (date_now O (t + i)))).
Proof.
  induction posts as [|z rest IH]; intros n t m Hn Hin;
    [by apply elem_of_nil in Hin|].
  assert (Hn' : no_rejects O (S n)) by (intros i Hi; apply Hn; lia).
  cbn [stored_after length]. apply elem_of_cons in Hin as [->|Hin].
  - rewrite (Hn n) by lia.
    destruct (stored_after_lookup O rest (S n) (S t)
                (<[post_key (RedditPost.id z) :=
                     JsonPost (storedPost_of z (date_now O t))]> m)
                (post_key (RedditPost.id z)))
      as [Hsame|(i & y & Hi & Hk%post_key_inj & _ & Hv)].
    + exists 0, z. rewrite Hsame, lookup_insert_eq, Nat.add_0_r.
      split_and!; [lia|done..].
    + exists (S i), y. apply lookup_lt_Some in Hi.
      replace (t + S i) with (S t + i) by lia.
      split_and!; [lia|done..].
  - destruct (IH (S n) (S t)
                (if kv_rejects O n then m
                 else <[post_key (RedditPost.id z) :=
                          JsonPost (storedPost_of z (date_now O t))]> m) Hn' Hin)
      as (i & y & Hi & Hy & Hv).
    exists (S i), y. replace (t + S i) with (S t + i) by lia.
    split_and!; [lia|done..].
Qed.

(** A whole ingest run in which the store requests succeed and every
    listed value parses. *)
Lemma scheduled_ok (cron : string) (env : Env) (posts : list RedditPost.t)
      (m : gmap string kv_text) (n t f : nat)
      (o : list (string * DiscordMessage)) (c : list log_line) :
  no_rejects O n -> parsable m ->
  let new := newPosts_of posts (stored_of m) in
  let m1 := stored_after O new (S n + length (listing m)) t m in
  let m2 := swept (cutoffTime_of (date_now O (t + length new)) 30) (listing m1) m1 in
  exists n' lines,
    scheduled O cron env (Ret posts) (mkWorld m n t f o c)
    = (Ret tt,
       mkWorld m2 n' (S (t + length new))
               (f + length (flat_map (notification_of env) new))
               (o ++ flat_map (notification_of env) new)
               (c ++ [LogCron cron; LogFetched (length posts); LogFetchingKV;
                      LogRetrieved (length (stored_of m));
                      LogStoredCount (length (stored_of m));
                      LogNewCount (length new)] ++ lines))
    /\ n <= n'.
Proof.
  intros Hn Hp new m1 m2.
  unfold scheduled, try_catch.
  rewrite bind_log. rewrite (bind_Ret (settle _) _ _ _ posts eq_refl).
  rewrite bind_log. unfold print. fields.
  erewrite (bind_Ret (getPostsFromKV O));
    [|apply getPostsFromKV_ok; [assumption|by apply parsable_readable]].
  do 2 step_log. fold new.
  destruct (scheduled_loop_spec O env new m (S n + length (listing m)) t f o
              (((((c ++ [LogCron cron]) ++ [LogFetched (length posts)]) ++
                  [LogFetchingKV; LogRetrieved (length (stored_of m))]) ++
                 [LogStoredCount (length (stored_of m))]) ++
                [LogNewCount (length new)]))
    as [l1 Hloop].
  rewrite (bind_Ret _ _ _ _ tt Hloop). fold m1.
  destruct (cleanupOldPosts_ok O 30 m1 (S n + length (listing m) + length new)
              (t + length new)
              (f + length (flat_map (notification_of env) new))
              (o ++ flat_map (notification_of env) new)
              ((((((c ++ [LogCron cron]) ++ [LogFetched (length posts)]) ++
                   [LogFetchingKV; LogRetrieved (length (stored_of m))]) ++
                  [LogStoredCount (length (stored_of m))]) ++
                 [LogNewCount (length new)]) ++ l1))
    as (n' & l2 & Hsweep & Hle).
  { intros i Hi. apply Hn. lia. }
  { by apply parsable_readable, parsable_stored_after. }
  unfold cleanupOldPosts_default. rewrite Hsweep. fold m2.
  exists n', (l1 ++ LogCleaning 30 :: l2 ++ [LogCleanupComplete (size m1 - size m2)]).
  split; [|lia]. rewrite <- !app_assoc. reflexivity.
Qed.

End TwoRuns.

(** C1, as stated, fails in its consequence: a second run with the same
    candidates can find new items although no save of the first run failed.
    The candidate [p1] is known to the first run, which stores nothing; its
    record is older than the retention period, so the sweep of that same run
    deletes it, and the second run finds [p1] new, stores it and notifies it
    again. *)
Lemma C1_second_run_finds_swept_item :
  let w1 := snd (scheduled Sample.quiet "* * * * *" Sample.env (Ret [Sample.p1])
                           (Sample.world Sample.stale)) in
  let w2 := snd (scheduled Sample.quiet "* * * * *" Sample.env (Ret [Sample.p1]) w1) in
  newPosts_of [Sample.p1] (stored_of Sample.stale) = [] /\
  newPosts_of [Sample.p1] (stored_of (kv w1)) = [Sample.p1] /\
  console w2
  = console w1 ++
    [LogCron "* * * * *"; LogFetched 1; LogFetchingKV; LogRetrieved 0;
     LogStoredCount 0; LogNewCount 1;
     LogPostTitle "title p1";
     LogPostLink "https://reddit.com/r/guinness/comments/p1";
     LogStoring "title p1"; LogStored "p1"; LogSending "title p1";
     LogSent "title p1"; LogCleaning 30; LogCleanupComplete 0] /\
  length (outbox w1) = 0 /\ length (outbox w2) = 1.
Proof. vm_compute. done. Qed.

(** C1, amended. The new items are exactly the candidates whose identifier
    is not among the identifiers of the records that the load returned, in
    the order of the candidate sequence. A second run with the same
    candidates yields zero new items (and notifies nothing) provided the
    store requests succeed, the stored values parse and are well keyed, the
    keys of the store and of the candidates fit on the one page of a
    listing, and the first run's sweep has no candidate's record to delete:
    during the first run no clock reading is later by more than the
    retention period than an earlier reading of that run or than the time
    stamp of a stored record of a candidate. *)
Theorem C1_dedup (O : Outside) (cron cron' : string) (env env' : Env)
        (candidates : list RedditPost.t) (w : World) :
  let w1 := snd (scheduled O cron env (Ret candidates) w) in
  let w2 := snd (scheduled O cron' env' (Ret candidates) w1) in
  (forall stored,
      newPosts_of candidates stored
      = filter (fun x => RedditPost.id x ∉ StoredPost.post_id <$> stored) candidates) /\
  (no_rejects O (kv_calls w) -> parsable (kv w) -> well_keyed (kv w) ->
   room_for (length candidates) (kv w) ->
   (forall i j, now_calls w <= i -> i <= j -> j <= now_calls w + length candidates ->
                (date_now O j - date_now O i <= maxAgeMs_of 30)%Z) ->
   (forall p j, p ∈ stored_of (kv w) ->
                StoredPost.post_id p ∈ RedditPost.id <$> candidates ->
                now_calls w <= j -> j <= now_calls w + length candidates ->
                (date_now O j - StoredPost.stored_at p <= maxAgeMs_of 30)%Z) ->
   newPosts_of candidates (stored_of (kv w1)) = [] /\
   outbox w2 = outbox w1 /\
   exists k lines,
     console w2
     = console w1 ++
       [LogCron cron'; LogFetched (length candidates); LogFetchingKV;
        LogRetrieved k; LogStoredCount k; LogNewCount 0] ++ lines).
Proof.
  intros w1 w2. split; [intros stored; apply newPosts_of_spec|].
  intros Hn Hp Hwk Hroom Hclock Hage. destruct w as [m n t f o c].
  cbn [kv kv_calls now_calls] in *.
  destruct (scheduled_ok O cron env candidates m n t f o c Hn Hp)
    as (n1 & l1 & Heq1 & Hle1).
  set (new := newPosts_of candidates (stored_of m)) in *.
  set (m1 := stored_after O new (S n + length (listing m)) t m) in *.
  set (cutoff := cutoffTime_of (date_now O (t + length new)) 30) in *.
  set (m2 := swept cutoff (listing m1) m1) in *.
  assert (Hlen : length new <= length candidates).
  { subst new. rewrite newPosts_of_spec. apply length_filter. }
  assert (Hone2 : one_page m2).
  { apply one_page_swept, one_page_stored_after.
    apply room_for_spec in Hroom. apply room_for_spec. lia. }
  assert (Hfresh : forall i, i < length new -> (cutoff <= date_now O (t + i))%Z).
  { intros i Hi. unfold cutoff, cutoffTime_of.
    pose proof (Hclock (t + i) (t + length new)). lia. }
  (* every candidate has a record that the first sweep keeps *)
  assert (Hm1 : forall x, x ∈ candidates ->
             exists p, m1 !! post_key (RedditPost.id x) = Some (JsonPost p) /\
                       StoredPost.post_id p = RedditPost.id x /\
                       (cutoff <= StoredPost.stored_at p)%Z).
  { intros x Hx.
    destruct (decide (RedditPost.id x ∈ StoredPost.post_id <$> stored_of m))
      as [Hknown|Hnew].
    - apply list_elem_of_fmap in Hknown as (sp & Hid & Hsp).
      pose proof Hsp as (k & Hpre & Hk)%elem_of_stored_of_1.
      pose proof (proj1 (well_keyed_spec m) Hwk k sp Hpre Hk) as ->.
      rewrite <- Hid in *.
      destruct (stored_after_lookup O new (S n + length (listing m)) t m
                  (post_key (RedditPost.id x)))
        as [Hsame|(i & y & Hi & Hy%post_key_inj & _ & Hv)].
      + exists sp. fold m1 in Hsame. rewrite Hsame. split_and!; [done..|].
        unfold cutoff, cutoffTime_of.
        assert (Hin : StoredPost.post_id sp ∈ RedditPost.id <$> candidates).
        { rewrite <- Hid. by apply list_elem_of_fmap_2. }
        pose proof (Hage sp (t + length new) Hsp Hin). lia.
      + eexists. fold m1 in Hv. split; [exact Hv|]. cbn.
        split; [done|]. apply Hfresh. by apply lookup_lt_Some in Hi.
    - assert (Hin : x ∈ new).
      { subst new. rewrite newPosts_of_spec. by apply list_elem_of_filter. }
      destruct (stored_after_has O new x (S n + length (listing m)) t m)
        as (i & y & Hi & Hy & Hv); [intros j Hj; apply Hn; lia|done|].
      eexists. fold m1 in Hv. split; [exact Hv|]. cbn.
      split; [done|]. by apply Hfresh. }
  assert (Hm2 : forall x, x ∈ candidates ->
             exists p, m2 !! post_key (RedditPost.id x) = Some (JsonPost p) /\
                       StoredPost.post_id p = RedditPost.id x).
  { intros x (p & Hv & Hid & Hkeep)%Hm1. exists p. split; [|done].
    unfold m2. rewrite swept_lookup, Hv. destruct (decide _); [|done].
    cbn. by rewrite (proj2 (Z.ltb_ge _ _)) by lia. }
  assert (Hnone : newPosts_of candidates (stored_of m2) = []).
  { apply newPosts_of_all_known. intros x (p & Hv & Hid)%Hm2.
    apply list_elem_of_fmap. exists p. split; [done|].
    apply elem_of_stored_of; [done|]. exists (post_key (RedditPost.id x)).
    split; [apply post_key_prefix|done]. }
  assert (Hp2 : parsable m2).
  { apply parsable_swept. by apply parsable_stored_after. }
  assert (Hn1 : no_rejects O n1) by (intros i Hi; apply Hn; lia).
  subst w2 w1. rewrite Heq1. cbn [snd kv outbox console].
  destruct (scheduled_ok O cron' env' candidates m2 n1 (S (t + length new))
              (f + length (flat_map (notification_of env) new))
              (o ++ flat_map (notification_of env) new)
              (c ++ [LogCron cron; LogFetched (length candidates); LogFetchingKV;
                     LogRetrieved (length (stored_of m));
                     LogStoredCount (length (stored_of m));
                     LogNewCount (length new)] ++ l1) Hn1 Hp2)
    as (n2 & l2 & Heq2 & _).
  rewrite Heq2, Hnone. cbn [snd outbox console flat_map length].
  split_and!; [done|by rewrite app_nil_r|]. by exists (length (stored_of m2)), l2.
Qed.

(** The first scenario of the specification: candidates [p1; p2] with [p2]
    stored give the new items [p1]; the store gains [post:p1] and the
    notifier is invoked once, for [p1]. *)
Example scenario_one_new_item :
  let r := scheduled Sample.quiet "* * * * *" Sample.env
                     (Ret [Sample.p1; Sample.p2]) (Sample.world Sample.recent) in
  fst r = Ret tt /\
  newPosts_of [Sample.p1; Sample.p2] (stored_of Sample.recent) = [Sample.p1] /\
  kv (snd r) !! post_key "p1" = Some (Sample.record Sample.p1 5000000000) /\
  outbox (snd r) = notification_of Sample.env Sample.p1.
Proof. vm_compute. done. Qed.

(** The second scenario: of two records stored 40 and 20 days before the
    sweep, exactly the first is deleted and the sweep logs a count of 1. *)
Example scenario_sweep_forty_twenty :
  let r := cleanupOldPosts_default Sample.quiet (Sample.world Sample.forty_twenty) in
  kv (snd r) !! post_key "p1" = None /\
  kv (snd r) !! post_key "p2" = Sample.forty_twenty !! post_key "p2" /\
  console (snd r) = [LogCleaning 30; LogDeleted "title p1"; LogCleanupComplete 1].
Proof. vm_compute. done. Qed.

Lemma C1_dedup_witness :
  let w1 := snd (scheduled Sample.quiet "* * * * *" Sample.env
                           (Ret [Sample.p1; Sample.p2]) (Sample.world Sample.recent)) in
  newPosts_of [Sample.p1; Sample.p2] (stored_of (kv w1)) = [].
Proof.
  intros w1.
  refine (proj1 (proj2
    (C1_dedup Sample.quiet "* * * * *" "* * * * *" Sample.env Sample.env
              [Sample.p1; Sample.p2] (Sample.world Sample.recent)) _ _ _ _ _ _)).
  - intros n _. reflexivity.
  - vm_compute. exact I.
  - vm_compute. exact I.
  - vm_compute. exact I.
  - intros i j _ Hij Hj. cbn in Hj. unfold maxAgeMs_of. cbn [date_now Sample.quiet]. lia.
  - intros p j Hp _ _ Hj. cbn in Hj.
    assert (Hs : stored_of (kv (Sample.world Sample.recent))
                 = [storedPost_of Sample.p2 4999999000]) by (by vm_compute).
    rewrite Hs in Hp. apply list_elem_of_singleton in Hp as ->.
    unfold maxAgeMs_of. cbn [date_now Sample.quiet StoredPost.stored_at storedPost_of]. lia.
Defined.

(** * The store helpers outside the handler *)

(** ** Most recent first *)

Lemma insert_recent_Permutation (a : StoredPost.t) (l : list StoredPost.t) :
  insert_recent a l ≡ₚ a :: l.
Proof.
  induction l as [|b rest IH]; [done|]. cbn.
  destruct (_ <? _)%Z; [|done]. rewrite IH. apply Permutation_swap.
Qed.

Lemma sort_recent_Permutation (l : list StoredPost.t) : sort_recent l ≡ₚ l.
Proof.
  induction l as [|a rest IH]; [done|]. cbn.
  by rewrite insert_recent_Permutation, IH.
Qed.

Lemma StronglySorted_insert_recent (a : StoredPost.t) (l : list StoredPost.t) :
  StronglySorted newer_or_equal l -> StronglySorted newer_or_equal (insert_recent a l).
Proof.
  induction l as [|b rest IH]; intros Hs; cbn.
  - by repeat constructor.
  - apply StronglySorted_inv in Hs as [Hrest Hb].
    destruct (_ <? _)%Z eqn:E.
    + apply Z.ltb_lt in E. constructor; [by apply IH|].
      rewrite insert_recent_Permutation. constructor; [|done].
      unfold newer_or_equal. lia.
    + apply Z.ltb_ge in E. constructor; [by constructor|].
      constructor; [done|].
      eapply Forall_impl; [exact Hb|]. unfold newer_or_equal. intros; lia.
Qed.

Lemma StronglySorted_sort_recent (l : list StoredPost.t) :
  StronglySorted newer_or_equal (sort_recent l).
Proof.
  induction l as [|a rest IH]; [constructor|].
  cbn. by apply StronglySorted_insert_recent.
Qed.

Lemma StronglySorted_take {A} (R : relation A) (n : nat) (l : list A) :
  StronglySorted R l -> StronglySorted R (take n l).
Proof.
  intros Hs. rewrite <- (take_drop n l) in Hs.
  by apply StronglySorted_app_1_l in Hs.
Qed.

Lemma slice0_take {A} (finish : Z) (l : list A) :
  exists n, slice0 finish l = take n l /\
            ((0 <= finish)%Z -> n = Z.to_nat finish) /\
            ((finish < 0)%Z -> n = length l - Z.to_nat (- finish)).
Proof.
  unfold slice0. destruct (finish <? 0)%Z eqn:E.
  - apply Z.ltb_lt in E. eexists. split; [done|]. split; lia.
  - apply Z.ltb_ge in E. eexists. split; [done|]. split; [done|lia].
Qed.


(** ** Reading through the helpers *)

Ltac cfields :=
  cbn [world accessToken token_calls listing_calls requests notes
       kv kv_calls now_calls fetch_calls outbox console].
Tactic Notation "cfields" "in" "*" :=
  cbn [world accessToken token_calls listing_calls requests notes
       kv kv_calls now_calls fetch_calls outbox console] in *.

Section Reading.

Variable O : Outside.

(** Whatever fails, the reading loop changes nothing but the request
    counter. *)
Lemma getPostsFromKV_loop_frame (keys : list string) :
  forall acc w r w',
    getPostsFromKV_loop O keys acc w = (r, w') ->
    kv w' = kv w /\ now_calls w' = now_calls w /\ fetch_calls w' = fetch_calls w /\
    outbox w' = outbox w /\ console w' = console w /\ kv_calls w <= kv_calls w'.
Proof.
  induction keys as [|k ks IH]; intros acc [m n t f o c] r w'.
  - cbn. unfold ret. intros ?. simplify_eq. fields. split_and!; done.
  - cbn [getPostsFromKV_loop].
    unfold kv_get_json, kv_request, count_kv_call, bind. fields.
    destruct (kv_rejects O n); fields.
    { intros ?. simplify_eq. fields. split_and!; try done; lia. }
    destruct (m !! k) as [[p| |]|]; fields;
      try (intros H; apply IH in H; fields in H;
           destruct H as (? & ? & ? & ? & ? & ?); split_and!; try done; lia).
    intros ?. simplify_eq. fields. split_and!; try done; lia.
Qed.

Lemma getRecentPosts_cases (limit : Z) (c : Client) :
  exists l c',
    getRecentPosts O limit c = (Ret l, c') /\
    kv (world c') = kv (world c) /\
    outbox (world c') = outbox (world c) /\
    (l = slice0 limit (sort_recent (stored_of (kv (world c)))) /\ notes c' = notes c
     \/ l = [] /\ exists e, notes c' = notes c ++ [ErrRecentPosts e]).
Proof.
  destruct c as [[m n t f o con] tok tc lc rq nt].
  unfold getRecentPosts, try_catchC, bindC, lift, kv_list, kv_request, say, jot,
    retC, set_world, count_kv_call, bind. cfields.
  destruct (kv_rejects O n); cfields.
  { eexists _, _. split; [reflexivity|]. cfields. split_and!; [done..|]. right. eauto. }
  destruct (getPostsFromKV_loop O _ _ _) as [[l|e] w1] eqn:Hloop; cfields.
  - pose proof (getPostsFromKV_loop_all_or_throw _ _ _ _ _ _ Hloop) as ->.
    apply getPostsFromKV_loop_frame in Hloop as (Hkv & _ & _ & Ho & _). fields in Hkv.
    fields in Ho. eexists _, _. split; [reflexivity|]. cfields.
    split_and!; [done..|]. left. done.
  - apply getPostsFromKV_loop_frame in Hloop as (Hkv & _ & _ & Ho & _). fields in Hkv.
    fields in Ho. eexists _, _. split; [reflexivity|]. cfields.
    split_and!; [done..|]. right. eauto.
Qed.

Lemma getRecentPosts_ok (limit : Z) (c : Client) :
  no_rejects O (kv_calls (world c)) -> readable (kv (world c)) ->
  fst (getRecentPosts O limit c)
  = Ret (slice0 limit (sort_recent (stored_of (kv (world c))))).
Proof.
  intros Hn Hp. pose proof (proj1 (readable_spec _) Hp) as Hp'.
  destruct c as [[m n t f o con] tok tc lc rq nt]. cfields in *.
  unfold getRecentPosts, try_catchC, bindC, lift, kv_list, kv_request, say, jot,
    retC, set_world, count_kv_call, bind. cfields.
  rewrite (Hn n) by lia. cfields.
  rewrite getPostsFromKV_loop_ok.
  - done.
  - intros i Hi. apply Hn. lia.
  - intros k Hk. by apply Hp'.
Qed.

End Reading.

(** What [getRecentPosts] returns was stored. *)
Lemma elem_of_getRecentPosts (O : Outside) (limit : Z) (c : Client)
      (l : list StoredPost.t) (p : StoredPost.t) :
  fst (getRecentPosts O limit c) = Ret l -> p ∈ l ->
  p ∈ stored_of (kv (world c)).
Proof.
  destruct (getRecentPosts_cases O limit c) as (l' & c' & -> & _ & _ & Hl).
  cbn [fst]. intros ? Hp. simplify_eq.
  destruct Hl as [[-> _]|[-> _]]; [|by apply elem_of_nil in Hp].
  destruct (slice0_take limit (sort_recent (stored_of (kv (world c)))))
    as (n & Heq & _). rewrite Heq in Hp.
  apply elem_of_take in Hp as (i & Hp & _).
  apply list_elem_of_lookup_2 in Hp. by rewrite sort_recent_Permutation in Hp.
Qed.

(** X1. [getRecentPosts] never raises and leaves the namespace as it was;
    what it returns is sorted by [stored_at], most recent first, consists of
    stored records only, and for a limit that is not negative has at most
    that many records. *)
Theorem getRecentPosts_most_recent_first (O : Outside) (limit : Z) (c : Client) :
  exists l,
    fst (getRecentPosts O limit c) = Ret l /\
    kv (world (snd (getRecentPosts O limit c))) = kv (world c) /\
    StronglySorted newer_or_equal l /\
    (forall p, p ∈ l -> p ∈ stored_of (kv (world c))) /\
    ((0 <= limit)%Z -> length l <= Z.to_nat limit).
Proof.
  destruct (getRecentPosts_cases O limit c) as (l & c' & Hrun & Hkv & _ & Hl).
  exists l. rewrite Hrun. cbn [fst snd]. split_and!; [done..| | |].
  - destruct Hl as [[-> _]|[-> _]]; [|constructor].
    destruct (slice0_take limit (sort_recent (stored_of (kv (world c)))))
      as (n & -> & _).
    apply StronglySorted_take, StronglySorted_sort_recent.
  - intros p Hp. apply (elem_of_getRecentPosts O limit c l p); [|done].
    by rewrite Hrun.
  - intros Hlim. destruct Hl as [[-> _]|[-> _]]; [|cbn; lia].
    destruct (slice0_take limit (sort_recent (stored_of (kv (world c)))))
      as (n & -> & Hn & _). rewrite length_take, (Hn Hlim). lia.
Qed.

Lemma getRecentPosts_most_recent_first_witness :
  exists l,
    fst (getRecentPosts Sample.quiet 2 (Demo.client (Sample.world Demo.three))) = Ret l /\
    length l <= 2.
Proof.
  destruct (getRecentPosts_most_recent_first Sample.quiet 2
              (Demo.client (Sample.world Demo.three)))
    as (l & Hl & _ & _ & _ & Hlen).
  exists l. split; [exact Hl|]. apply Hlen. lia.
Defined.

(** X2. When the store requests succeed and the listed values are JSON,
    [getRecentPosts] keeps the newest of the listed page: the records of the
    page split into the returned ones and the rest, no record of the rest is
    more recent than a returned one, a limit that is not negative gives that
    many records (all of them when there are fewer), and a negative limit
    drops that many of the oldest records instead. With at most 1000 keys
    under [post:] the records of the page are all the records of the
    store. *)
Theorem getRecentPosts_keeps_the_newest (O : Outside) (limit : Z) (c : Client) :
  no_rejects O (kv_calls (world c)) -> readable (kv (world c)) ->
  exists l rest,
    fst (getRecentPosts O limit c) = Ret l /\
    l ++ rest ≡ₚ stored_of (kv (world c)) /\
    (forall p q, p ∈ l -> q ∈ rest ->
                 (StoredPost.stored_at q <= StoredPost.stored_at p)%Z) /\
    ((0 <= limit)%Z ->
     length l = Nat.min (Z.to_nat limit) (length (stored_of (kv (world c))))) /\
    ((limit < 0)%Z ->
     length l = length (stored_of (kv (world c))) - Z.to_nat (- limit)) /\
    (one_page (kv (world c)) ->
     forall p, p ∈ l ++ rest <->
               exists k, String.prefix "post:" k = true /\
                         kv (world c) !! k = Some (JsonPost p)).
Proof.
  intros Hn Hp. rewrite (getRecentPosts_ok O limit c Hn Hp).
  set (sorted := sort_recent (stored_of (kv (world c)))).
  destruct (slice0_take limit sorted) as (n & Heq & Hpos & Hneg).
  assert (Hlen : length sorted = length (stored_of (kv (world c)))).
  { unfold sorted. by rewrite sort_recent_Permutation. }
  exists (slice0 limit sorted), (drop n sorted). rewrite Heq.
  split_and!; [done| | | | |].
  - rewrite take_drop. apply sort_recent_Permutation.
  - intros p q Hp' Hq.
    apply (StronglySorted_app_1_elem_of newer_or_equal (take n sorted) (drop n sorted));
      [|done..].
    rewrite take_drop. apply StronglySorted_sort_recent.
  - intros H. rewrite length_take, (Hpos H), Hlen. done.
  - intros H. rewrite length_take, (Hneg H), Hlen. lia.
  - intros Hone p. rewrite take_drop. unfold sorted.
    rewrite sort_recent_Permutation. by apply elem_of_stored_of.
Qed.

Lemma getRecentPosts_keeps_the_newest_witness :
  fst (getRecentPosts Sample.quiet 2 (Demo.client (Sample.world Demo.three)))
  = Ret [storedPost_of Sample.p1 300; storedPost_of Sample.p3 200].
Proof.
  destruct (getRecentPosts_keeps_the_newest Sample.quiet 2
              (Demo.client (Sample.world Demo.three)))
    as (l & rest & Hl & _).
  - intros n _. reflexivity.
  - vm_compute. exact I.
  - reflexivity.
Defined.



(** Of five records the two most recent come first; the other three have
    the same time stamp and come in the order of their keys. *)
Example getRecentPosts_ties_example :
  let m := <[post_key "f" := Sample.record (Sample.post "f" 0) 7]>
             (<[post_key "c" := Sample.record (Sample.post "c" 0) 9]>
                (<[post_key "a" := Sample.record (Sample.post "a" 0) 8]>
                   (<[post_key "d" := Sample.record (Sample.post "d" 0) 7]>
                      (<[post_key "b" := Sample.record (Sample.post "b" 0) 7]> ∅)))) in
  match fst (getRecentPosts_default Sample.quiet (Demo.client (Sample.world m))) with
  | Ret l => StoredPost.post_id <$> l
  | Throw _ => []
  end = ["c"; "a"; "b"; "d"; "f"].
Proof. by vm_compute. Qed.

(** X4. When the listing rejects or a value under a listed key is not
    JSON, [getRecentPosts] returns the empty sequence and logs the error;
    the records it had already read are dropped. *)
Theorem getRecentPosts_failure_gives_empty (O : Outside) (limit : Z) (c : Client) :
  kv_rejects O (kv_calls (world c)) = true \/ readable (kv (world c)) = false ->
  fst (getRecentPosts O limit c) = Ret [] /\
  exists e, notes (snd (getRecentPosts O limit c)) = notes c ++ [ErrRecentPosts e].
Proof.
  intros H. destruct c as [[m n t f o con] tok tc lc rq nt]. cfields in *.
  unfold getRecentPosts, try_catchC, bindC, lift, kv_list, kv_request, say, jot,
    retC, set_world, count_kv_call, bind. cfields.
  destruct (kv_rejects O n) eqn:R0; cfields; [cbn; eauto|].
  destruct H as [?|H]; [done|].
  apply forallb_false_witness in H as (k & Hin & Hk).
  destruct (getPostsFromKV_loop_corrupt O (list_page "post:" m) []
              (mkWorld m (S n) t f o con)) as (e & w1 & ->).
  - exists k. split; [done|]. fields. by destruct (m !! k) as [[]|].
  - cbn. eauto.
Qed.

Lemma getRecentPosts_failure_gives_empty_witness :
  fst (getRecentPosts Sample.quiet 5 (Demo.client (Sample.world Sample.corrupt)))
  = Ret [].
Proof.
  refine (proj1 (getRecentPosts_failure_gives_empty Sample.quiet 5
                   (Demo.client (Sample.world Sample.corrupt)) _)).
  right. reflexivity.
Defined.

(** ** Reading one record *)

Lemma getPostById_eq (O : Outside) (postId : string) (m : gmap string kv_text)
      (n t f : nat) (o : list (string * DiscordMessage)) (con : list log_line)
      (tok : option string) (tc lc : nat) (rq : list api_request) (nt : list note) :
  getPostById O postId (mkClient (mkWorld m n t f o con) tok tc lc rq nt)
  = if kv_rejects O n
    then (Ret None, mkClient (mkWorld m (S n) t f o con) tok tc lc rq
                             (nt ++ [ErrFetchingPost postId KVError]))
    else match m !! post_key postId with
         | Some NotJson =>
             (Ret None, mkClient (mkWorld m (S n) t f o con) tok tc lc rq
                                 (nt ++ [ErrFetchingPost postId JsonSyntaxError]))
         | _ =>
             (Ret (json_post_at m (post_key postId)),
              mkClient (mkWorld m (S n) t f o con) tok tc lc rq nt)
         end.
Proof.
  unfold getPostById, try_catchC, bindC, lift, kv_get_json, kv_request, say, jot,
    retC, set_world, count_kv_call, bind, json_post_at. cfields.
  destruct (kv_rejects O n); cfields; [done|].
  by destruct (m !! post_key postId) as [[p| |]|].
Qed.

(** X5. [getPostById] never raises, makes one request and leaves the
    namespace as it was. When the read succeeds it returns the record held
    under the key [post:] followed by the identifier, and [null] for a
    missing key or a value that reads as absent, logging nothing. When the
    request rejects, or the value under the key is not JSON, it returns
    [null] whatever the key holds and logs the error. *)
Theorem getPostById_reads (O : Outside) (postId : string) (c : Client) :
  let r := getPostById O postId c in
  let key := "post:" +:+ postId in
  (exists v, fst r = Ret v) /\
  kv (world (snd r)) = kv (world c) /\
  kv_calls (world (snd r)) = S (kv_calls (world c)) /\
  (kv_rejects O (kv_calls (world c)) = false ->
   kv (world c) !! key <> Some NotJson ->
   fst r = Ret (match kv (world c) !! key with
                | Some (JsonPost p) => Some p
                | _ => None
                end) /\
   notes (snd r) = notes c) /\
  (kv_rejects O (kv_calls (world c)) = true ->
   fst r = Ret None /\ notes (snd r) = notes c ++ [ErrFetchingPost postId KVError]) /\
  (kv_rejects O (kv_calls (world c)) = false ->
   kv (world c) !! key = Some NotJson ->
   fst r = Ret None /\
   notes (snd r) = notes c ++ [ErrFetchingPost postId JsonSyntaxError]).
Proof.
  intros r key. subst r.
  destruct c as [[m n t f o con] tok tc lc rq nt]. cfields.
  rewrite getPostById_eq. unfold json_post_at.
  change (post_key postId) with key.
  destruct (kv_rejects O n); cfields.
  - cbn. split_and!; [eauto|done..].
  - destruct (m !! key) as [[p| |]|]; cbn;
      split_and!; try done; eauto.
Qed.

Lemma getPostById_reads_witness :
  fst (getPostById Sample.quiet "p1" (Demo.client (Sample.world Demo.three)))
  = Ret (Some (storedPost_of Sample.p1 300)) /\
  fst (getPostById (Sample.rejecting 0) "p1" (Demo.client (Sample.world Demo.three)))
  = Ret None.
Proof.
  split.
  - refine (proj1 (proj1 (proj2 (proj2 (proj2
      (getPostById_reads Sample.quiet "p1" (Demo.client (Sample.world Demo.three))))))
      _ _)).
    + reflexivity.
    + vm_compute. discriminate.
  - refine (proj1 (proj1 (proj2 (proj2 (proj2 (proj2
      (getPostById_reads (Sample.rejecting 0) "p1"
         (Demo.client (Sample.world Demo.three))))))) _)).
    reflexivity.
Defined.

(** X6. What [storePostInKV] wrote is what [getPostById] reads back: after
    a save whose write went through, a read that succeeds returns the post's
    record, stamped with the clock reading of the save. *)
Theorem getPostById_after_store (O : Outside) (post : RedditPost.t) (c : Client) :
  let saved := snd (lift (storePostInKV O post) c) in
  kv_rejects O (kv_calls (world c)) = false ->
  kv_rejects O (S (kv_calls (world c))) = false ->
  fst (getPostById O (RedditPost.id post) saved)
  = Ret (Some (storedPost_of post (date_now O (now_calls (world c))))).
Proof.
  intros saved R0 R1. subst saved.
  destruct c as [[m n t f o con] tok tc lc rq nt]. cfields in *.
  unfold lift. cfields. rewrite storePostInKV_eq, R0. unfold set_world. cfields.
  cbn [snd]. rewrite getPostById_eq, R1, lookup_insert_eq.
  unfold json_post_at. by rewrite lookup_insert_eq.
Qed.

Lemma getPostById_after_store_witness :
  fst (getPostById Sample.quiet "p1"
         (snd (lift (storePostInKV Sample.quiet Sample.p1)
                    (Demo.client (Sample.world ∅)))))
  = Ret (Some (storedPost_of Sample.p1 5000000000)).
Proof.
  exact (getPostById_after_store Sample.quiet Sample.p1 (Demo.client (Sample.world ∅))
           eq_refl eq_refl).
Defined.



(** * The handler as a whole *)

Section Handler.

Variable O : Outside.

(** Whatever fails, loading returns all the records of the listed page or
    none and changes nothing but the request counter and the console. *)
Lemma getPostsFromKV_any (m : gmap string kv_text) (n t f : nat)
      (o : list (string * DiscordMessage)) (c : list log_line) :
  exists stored n1 c1,
    getPostsFromKV O (mkWorld m n t f o c) = (Ret stored, mkWorld m n1 t f o c1) /\
    n <= n1 /\ (stored = stored_of m \/ stored = []).
Proof.
  unfold getPostsFromKV, try_catch, kv_list, kv_request, log, print, ret,
    count_kv_call, bind. fields.
  destruct (kv_rejects O n); fields.
  { eexists _, _, _. split; [reflexivity|]. split; [lia|by right]. }
  destruct (getPostsFromKV_loop O _ _ _) as [[l|e] [m1 n1 t1 f1 o1 c1]] eqn:Hloop; fields.
  - pose proof (getPostsFromKV_loop_all_or_throw _ _ _ _ _ _ Hloop) as ->.
    apply getPostsFromKV_loop_frame in Hloop as (? & ? & ? & ? & ? & ?).
    cbn in *. simplify_eq. eexists _, _, _. split; [reflexivity|].
    split; [lia|by left].
  - apply getPostsFromKV_loop_frame in Hloop as (? & ? & ? & ? & ? & ?).
    cbn in *. simplify_eq. eexists _, _, _. split; [reflexivity|].
    split; [lia|by right].
Qed.

(** A run whose feed fetch succeeded, whatever the store and the webhook
    do: it loads all or nothing, stores and notifies the new items, and ends
    with a sweep. *)
Lemma scheduled_any (cron : string) (env : Env) (posts : list RedditPost.t)
      (m : gmap string kv_text) (n t f : nat)
      (o : list (string * DiscordMessage)) (c : list log_line) :
  exists stored n1 w_loop w',
    (stored = stored_of m \/ stored = []) /\
    (no_rejects O n -> readable m -> stored = stored_of m) /\
    n <= n1 /\
    kv w_loop = stored_after O (newPosts_of posts stored) n1 t m /\
    now_calls w_loop = t + length (newPosts_of posts stored) /\
    scheduled O cron env (Ret posts) (mkWorld m n t f o c) = (Ret tt, w') /\
    cleanupOldPosts_default O w_loop = (Ret tt, w') /\
    outbox w' = o ++ flat_map (notification_of env) (newPosts_of posts stored) /\
    (forall k,
        kv w' !! k = kv w_loop !! k \/
        (kv w' !! k = None /\
         exists p, kv w_loop !! k = Some (JsonPost p) /\
                   (StoredPost.stored_at p
                    < cutoffTime_of (date_now O (now_calls w_loop)) 30)%Z)).
Proof.
  unfold scheduled, try_catch.
  rewrite bind_log. rewrite (bind_Ret (settle _) _ _ _ posts eq_refl).
  rewrite bind_log. unfold print. fields.
  destruct (getPostsFromKV_any m n t f o
              ((c ++ [LogCron cron]) ++ [LogFetched (length posts)]))
    as (stored & n1 & c1 & Hload & Hle & Hstored).
  assert (Hok : no_rejects O n -> readable m -> stored = stored_of m).
  { intros Hn Hp.
    rewrite (getPostsFromKV_ok O m n t f o _ Hn Hp) in Hload. by simplify_eq. }
  rewrite (bind_Ret _ _ _ _ _ Hload). do 2 step_log.
  set (new := newPosts_of posts stored).
  destruct (scheduled_loop_spec O env new m n1 t f o
              ((c1 ++ [LogStoredCount (length stored)]) ++ [LogNewCount (length new)]))
    as [l1 Hloop].
  rewrite (bind_Ret _ _ _ _ tt Hloop).
  match type of Hloop with _ = (_, ?w) => set (w_loop := w) in * end.
  destruct (cleanupOldPosts_any O 30 w_loop)
    as (w' & Hsweep & Ht & Hf & Ho & Hn1 & _ & Hk).
  exists stored, n1, w_loop, w'. unfold cleanupOldPosts_default. rewrite Hsweep.
  split_and!; try done.
  intros k. destruct (Hk k) as [?|(? & p & ? & ? & _)]; [by left|right].
    split; [done|]. by exists p.
Qed.


End Handler.

(** [scheduled] returns normally, and does nothing when the feed failed. *)
Lemma scheduled_total (O : Outside) (cron : string) (env : Env)
      (fetched : outcome (list RedditPost.t)) (w : World) :
  fst (scheduled O cron env fetched w) = Ret tt /\
  (forall e, fetched = Throw e ->
             snd (scheduled O cron env fetched w)
             = print (ErrScheduled e) (print (LogCron cron) w)).
Proof.
  destruct fetched as [posts|e].
  - destruct w as [m n t f o c].
    destruct (scheduled_any O cron env posts m n t f o c)
      as (stored & n1 & w_loop & w' & _ & _ & _ & _ & _ & -> & _).
    by split.
  - split; [done|]. intros ? ?. by simplify_eq.
Qed.

(** X8. [scheduled] never raises, whatever the feed, the store and the
    webhook do. When the feed client rejects, the run ends at once: apart
    from two console lines the world is as it was (nothing is read, stored,
    notified or swept). When the feed is fetched, the run always ends with
    the sweep, also when there is no new item. *)
Theorem scheduled_never_raises (O : Outside) (cron : string) (env : Env)
        (fetched : outcome (list RedditPost.t)) (w : World) :
  fst (scheduled O cron env fetched w) = Ret tt /\
  (forall e, fetched = Throw e ->
             snd (scheduled O cron env fetched w)
             = print (ErrScheduled e) (print (LogCron cron) w)) /\
  (forall posts, fetched = Ret posts ->
                 exists w_loop, scheduled O cron env fetched w
                                = cleanupOldPosts_default O w_loop).
Proof.
  destruct fetched as [posts|e].
  - destruct w as [m n t f o c].
    destruct (scheduled_any O cron env posts m n t f o c)
      as (stored & n1 & w_loop & w' & _ & _ & _ & _ & _ & Hrun & Hsweep & _).
    rewrite Hrun. split_and!; [done|done|].
    intros ? _. exists w_loop. by rewrite Hsweep.
  - split_and!; [done| |done]. intros ? ?. by simplify_eq.
Qed.

Lemma scheduled_never_raises_witness :
  snd (scheduled Sample.quiet "* * * * *" Sample.env (Throw FeedError)
                 (Sample.world Sample.two_old))
  = print (ErrScheduled FeedError)
          (print (LogCron "* * * * *") (Sample.world Sample.two_old)).
Proof.
  exact (proj1 (proj2 (scheduled_never_raises Sample.quiet "* * * * *" Sample.env
                         (Throw FeedError) (Sample.world Sample.two_old)))
           FeedError eq_refl).
Defined.



(** A post stored under a key beyond the listed page is notified again,
    although nothing fails: of 1001 stored posts the run finds the one
    under [post:999] new. *)
Example scheduled_notifies_beyond_page :
  let m := Sample.crowd 1001 4999999000 in
  let again := Sample.post "999" 1700000000 in
  let w' := snd (scheduled Sample.quiet "* * * * *" Sample.env (Ret [again])
                           (Sample.world m)) in
  m !! post_key "999" = Some (Sample.record again 4999999000) /\
  outbox w' = notification_of Sample.env again /\
  kv w' !! post_key "999" = Some (Sample.record again 5000000000).
Proof. vm_compute. done. Qed.



(** X11. A run never rewrites a stored record. When the store requests
    succeed in a well-formed namespace whose keys, with those of the fetched
    posts, fit on the one page of a listing, a record that was stored before
    the run is, after it, either unchanged (same [stored_at], also when its
    post was fetched again) or deleted by the sweep, and it is deleted
    exactly when its [stored_at] is before the cutoff. *)
Theorem scheduled_never_rewrites (O : Outside) (cron : string) (env : Env)
        (posts : list RedditPost.t) (w : World) (k : string) (p : StoredPost.t) :
  let new := newPosts_of posts (stored_of (kv w)) in
  let cutoff := cutoffTime_of (date_now O (now_calls w + length new)) 30 in
  let w' := snd (scheduled O cron env (Ret posts) w) in
  no_rejects O (kv_calls w) -> parsable (kv w) -> well_keyed (kv w) ->
  room_for (length posts) (kv w) ->
  String.prefix "post:" k = true -> kv w !! k = Some (JsonPost p) ->
  kv w' !! k
  = if (StoredPost.stored_at p <? cutoff)%Z then None else Some (JsonPost p).
Proof.
  intros new cutoff w' Hn Hp Hwk Hroom Hpre Hv. destruct w as [m n t f o c].
  cbn [kv kv_calls now_calls] in *.
  destruct (scheduled_ok O cron env posts m n t f o c Hn Hp) as (n' & l & Heq & _).
  subst w'. rewrite Heq. cbn [snd kv]. fold new. fold cutoff.
  set (m1 := stored_after O new (S n + length (listing m)) t m).
  assert (Hlen : length new <= length posts).
  { subst new. rewrite newPosts_of_spec. apply length_filter. }
  assert (Hone1 : one_page m1).
  { apply one_page_stored_after.
    apply room_for_spec in Hroom. apply room_for_spec. lia. }
  assert (Hm1 : m1 !! k = Some (JsonPost p)).
  { unfold m1. rewrite stored_after_untouched; [done|].
    intros x Hx ->. subst new. rewrite newPosts_of_spec in Hx.
    apply list_elem_of_filter in Hx as [Hnew _]. apply Hnew.
    pose proof (proj1 (well_keyed_spec m) Hwk _ p Hpre Hv) as Hkey%post_key_inj.
    rewrite Hkey. apply list_elem_of_fmap_2, elem_of_stored_of; [|eauto].
    by apply (room_for_one_page (length posts)). }
  rewrite swept_lookup, Hm1, decide_True.
  - cbn. by destruct (_ <? _)%Z.
  - apply elem_of_listing; [done|]. by rewrite Hm1.
Qed.

Lemma scheduled_never_rewrites_witness :
  kv (snd (scheduled Sample.quiet "* * * * *" Sample.env
                     (Ret [Sample.p1; Sample.p2]) (Sample.world Sample.recent)))
     !! post_key "p2"
  = Some (Sample.record Sample.p2 4999999000).
Proof.
  exact (scheduled_never_rewrites Sample.quiet "* * * * *" Sample.env
           [Sample.p1; Sample.p2] (Sample.world Sample.recent) (post_key "p2")
           (storedPost_of Sample.p2 4999999000)
           (fun n _ => eq_refl) ltac:(vm_compute; exact I) ltac:(vm_compute; exact I)
           ltac:(vm_compute; exact I) eq_refl eq_refl).
Defined.

(** * The notifier's message *)

Lemma string_length_app (a b : string) :
  String.length (a +:+ b) = String.length a + String.length b.
Proof. induction a as [|x a IH]; simpl; [done|]. by rewrite IH. Qed.

Lemma prefix_app (a s : string) :
  String.prefix a s = true <-> exists b, s = a +:+ b.
Proof.
  revert s. induction a as [|x a IH]; intros s.
  - split; [intros _; by exists s|]. intros _. by destruct s.
  - destruct s as [|y s]; cbn.
    + split; [done|]. intros [b ?]. done.
    + destruct (ascii_dec x y) as [->|Hne].
      * rewrite IH. split; intros [b Hb]; exists b; [by rewrite Hb|].
        change (String y s = String y (a +:+ b)) in Hb. by simplify_eq.
      * split; [done|]. intros [b Hb].
        change (String y s = String x (a +:+ b)) in Hb. by simplify_eq.
Qed.

Lemma string_app_cons (x : ascii) (a b : string) :
  String x a +:+ b = String x (a +:+ b).
Proof. reflexivity. Qed.

(** [includes] is containment as a substring. *)
Lemma includes_spec (s needle : string) :
  includes s needle = true <-> exists pre post, s = pre +:+ needle +:+ post.
Proof.
  induction s as [|x s IH].
  - cbn [includes]. rewrite orb_false_r, prefix_app. split.
    + intros [b Hb]. by exists "", b.
    + intros ([|y pre] & post & H); [by exists post|].
      by rewrite string_app_cons in H.
  - cbn [includes]. rewrite orb_true_iff, prefix_app, IH. split.
    + intros [[b Hb]|(pre & post & Hs)].
      * by exists "", b.
      * exists (String x pre), post. by rewrite string_app_cons, Hs.
    + intros ([|y pre] & post & H).
      * left. by exists post.
      * right. rewrite string_app_cons in H. simplify_eq. by exists pre, post.
Qed.

(** ** Lengths in code units *)

Lemma utf16_units_cases (a : ascii) :
  (utf16_units a = 0 /\ (128 <= N_of_ascii a < 192)%N) \/
  (utf16_units a = 1 /\ ((N_of_ascii a < 128)%N \/ (192 <= N_of_ascii a < 240)%N)) \/
  (utf16_units a = 2 /\ (240 <= N_of_ascii a)%N).
Proof.
  unfold utf16_units.
  destruct (N.ltb_spec (N_of_ascii a) 128); [right; left; split; [done|lia]|].
  destruct (N.ltb_spec (N_of_ascii a) 192); [left; split; [done|lia]|].
  destruct (N.ltb_spec (N_of_ascii a) 240); [right; left; split; [done|lia]|].
  right; right. split; [done|lia].
Qed.

Lemma utf16_units_of_N (n : N) :
  (n < 256)%N ->
  utf16_units (ascii_of_N n)
  = if (n <? 128)%N then 1
    else if (n <? 192)%N then 0 else if (n <? 240)%N then 1 else 2.
Proof. intros H. unfold utf16_units. by rewrite N_ascii_embedding. Qed.

Lemma js_length_app (a b : string) :
  js_length (a +:+ b) = js_length a + js_length b.
Proof.
  induction a as [|x a IH]; [done|].
  rewrite string_app_cons. cbn [js_length]. rewrite IH. lia.
Qed.

Lemma utf16_units_continuation (n : N) :
  (n < 64)%N -> utf16_units (ascii_of_N (128 + n)) = 0.
Proof.
  intros H. rewrite utf16_units_of_N by lia.
  destruct (N.ltb_spec (128 + n) 128); [exfalso; lia|].
  destruct (N.ltb_spec (128 + n) 192); [done|exfalso; lia].
Qed.

(** Half a surrogate pair is one code unit. *)
Lemma js_length_high_surrogate (a : ascii) (rest : string) :
  js_length (high_surrogate a rest) = 1.
Proof.
  unfold high_surrogate. cbn [js_length].
  rewrite !utf16_units_continuation by (by apply N.mod_lt).
  reflexivity.
Qed.

(** [s.substring(0, n).length] is [Math.min(n, s.length)]. *)
Lemma js_length_substring0 (n : nat) (s : string) :
  js_length (js_substring0 n s) = Nat.min n (js_length s).
Proof.
  revert n. induction s as [|a rest IH]; intros n; [by destruct n|].
  cbn [js_substring0 js_length].
  pose proof (utf16_units_cases a) as Hc.
  destruct (utf16_units a) as [|[|[|u]]] eqn:U.
  - cbn [js_length]. rewrite U, IH. lia.
  - destruct n as [|n]; [done|]. cbn [js_length]. rewrite U, IH. lia.
  - destruct n as [|[|n]]; [done| |].
    + rewrite js_length_high_surrogate. lia.
    + cbn [js_length]. rewrite U, IH. lia.
  - exfalso. destruct Hc as [[? _]|[[? _]|[? _]]]; lia.
Qed.

(** On ASCII texts code units are bytes. *)
Lemma ascii_text_units (s : string) :
  ascii_text s ->
  js_length s = String.length s /\
  forall n, js_substring0 n s = substring 0 n s.
Proof.
  induction s as [|a rest IH]; [split; [done|by intros []]|].
  cbn [ascii_text]. intros [Ha Hrest]%andb_prop_elim.
  apply Is_true_true, N.ltb_lt in Ha. destruct (IH Hrest) as [Hlen Hsub].
  assert (U : utf16_units a = 1).
  { destruct (utf16_units_cases a) as [[_ ?]|[[? _]|[_ ?]]]; [lia|done|lia]. }
  split.
  - cbn [js_length String.length]. rewrite U, Hlen. done.
  - intros [|n]; cbn [js_substring0 substring]; rewrite U; [done|].
    by rewrite Hsub.
Qed.

(** Without characters of four bytes a cut splits no character: what is
    kept are the first bytes of the text. *)
Lemma bmp_text_prefix (n : nat) (s : string) :
  bmp_text s -> exists rest, s = js_substring0 n s +:+ rest.
Proof.
  revert n. induction s as [|a s IH]; intros n; [by exists ""|].
  cbn [bmp_text]. intros [Ha Hs]%andb_prop_elim.
  apply Is_true_true, N.ltb_lt in Ha. cbn [js_substring0].
  destruct (utf16_units_cases a) as [[-> _]|[[-> _]|[_ ?]]]; [| |lia].
  - destruct (IH n Hs) as [rest Hrest]. exists rest.
    by rewrite string_app_cons, <- Hrest.
  - destruct n as [|n]; [by eexists|].
    destruct (IH n Hs) as [rest Hrest]. exists rest.
    by rewrite string_app_cons, <- Hrest.
Qed.

(** X12. The description of the embed is never empty and never longer than
    303 UTF-16 code units, the units in which the source measures: a body
    text of up to 300 units is shown as it is, a longer one is cut to its
    first 300 units followed by three dots, and a missing or empty one is
    replaced by the fixed line. On an ASCII text the units are its
    characters; on a text without characters outside the basic plane the
    cut keeps the first bytes of the text. *)
Theorem description_of_bounds (post : RedditPost.t) :
  description_of post <> "" /\
  js_length (description_of post) <= 303 /\
  (forall s, RedditPost.selftext post = Some s -> s <> "" ->
             js_length s <= 300 -> description_of post = s) /\
  (forall s, RedditPost.selftext post = Some s -> 300 < js_length s ->
             description_of post = js_substring0 300 s +:+ "..." /\
             js_length (js_substring0 300 s) = 300 /\
             js_length (description_of post) = 303) /\
  (RedditPost.selftext post = None \/ RedditPost.selftext post = Some "" ->
   description_of post = "Click the link to view this post on Reddit!") /\
  (forall s, RedditPost.selftext post = Some s -> ascii_text s ->
             300 < String.length s ->
             description_of post = substring 0 300 s +:+ "...") /\
  (forall s, RedditPost.selftext post = Some s -> bmp_text s ->
             exists rest, s = js_substring0 300 s +:+ rest).
Proof.
  assert (Hcut : forall s, 300 < js_length s ->
             js_length (js_substring0 300 s) = 300 /\
             js_length (js_substring0 300 s +:+ "...") = 303).
  { intros s Hs. rewrite js_length_app, js_length_substring0.
    change (js_length "...") with 3. lia. }
  assert (Hfixed : js_length "Click the link to view this post on Reddit!" = 43)
    by reflexivity.
  unfold description_of. destruct (RedditPost.selftext post) as [s|]; cycle 1.
  { split_and!; try done. rewrite Hfixed. lia. }
  destruct (String.eqb_spec s "") as [->|Hne].
  { split_and!; try done.
    all: try (rewrite Hfixed; lia).
    all: try (intros s ? ?; by simplify_eq).
    all: try (intros s ? ?; simplify_eq; cbn in *; lia).
    all: try (intros s ? _ ?; simplify_eq; cbn in *; lia).
    all: intros s ? _; simplify_eq; by exists "". }
  destruct (300 <? js_length s) eqn:E.
  - apply Nat.ltb_lt in E. destruct (Hcut s E) as [H300 H303]. split_and!.
    + intros H. rewrite H in H303. done.
    + lia.
    + intros s' ? _ ?. simplify_eq. lia.
    + intros s' ? _. by simplify_eq.
    + intros [?|?]; by simplify_eq.
    + intros s' ? Ha _. simplify_eq.
      by rewrite (proj2 (ascii_text_units s' Ha)).
    + intros s' ? Hb. simplify_eq. by apply bmp_text_prefix.
  - apply Nat.ltb_ge in E. split_and!.
    + done.
    + lia.
    + intros s' ? _ _. by simplify_eq.
    + intros s' ? ?. simplify_eq. lia.
    + intros [?|?]; by simplify_eq.
    + intros s' ? Ha Hlen. simplify_eq.
      rewrite (proj1 (ascii_text_units s' Ha)) in E. lia.
    + intros s' ? Hb. simplify_eq. by apply bmp_text_prefix.
Qed.

Lemma description_of_bounds_witness :
  description_of (Sample.post "p9" 0) = "Click the link to view this post on Reddit!".
Proof.
  refine (proj1 (proj2 (proj2 (proj2 (proj2
    (description_of_bounds (Sample.post "p9" 0)))))) _).
  left. reflexivity.
Defined.

(** A body text of 151 accented letters has 302 bytes but 151 code units,
    and is shown as it is. One of 299 letters followed by a character
    outside the basic plane and one more letter has 302 code units; the cut
    falls inside the surrogate pair of that character, and the description
    ends with the first half of the pair, then the three dots. *)
Example description_of_counts_code_units :
  String.length Sample.accents = 302 /\ js_length Sample.accents = 151 /\
  description_of (Sample.saying Sample.accents) = Sample.accents /\
  String.length Sample.letters_then_beer = 304 /\
  js_length Sample.letters_then_beer = 302 /\
  description_of (Sample.saying Sample.letters_then_beer)
  = substring 0 299 Sample.letters_then_beer
    +:+ String (ascii_of_N 237) (String (ascii_of_N 160) (String (ascii_of_N 188) ""))
    +:+ "..." /\
  js_length (description_of (Sample.saying Sample.letters_then_beer)) = 303.
Proof. vm_compute. done. Qed.

(** X13. The message has one embed, and an image is attached to it exactly
    when the post's URL contains [.jpg], [.png], [.gif], [imgur] or
    [i.redd.it] somewhere; the image is then the post's URL itself. *)
Theorem image_attached_iff (post : RedditPost.t) (timestamp : Z) :
  exists embed,
    dm_embeds (discordMessage_of post timestamp) = [embed] /\
    (em_image embed = Some (RedditPost.url post) \/ em_image embed = None) /\
    (em_image embed <> None <->
     exists marker pre rest,
       marker ∈ [".jpg"; ".png"; ".gif"; "imgur"; "i.redd.it"] /\
       RedditPost.url post = pre +:+ marker +:+ rest).
Proof.
  eexists. split; [reflexivity|]. cbn [em_image].
  assert (Hiff : has_image (RedditPost.url post) = true <->
                 exists marker pre rest,
                   marker ∈ [".jpg"; ".png"; ".gif"; "imgur"; "i.redd.it"] /\
                   RedditPost.url post = pre +:+ marker +:+ rest).
  { unfold has_image. rewrite andb_true_iff, !orb_true_iff, !includes_spec. split.
    - intros [_ H].
      destruct H as [[[[(pre & rest & H)|(pre & rest & H)]|(pre & rest & H)]
                        |(pre & rest & H)]|(pre & rest & H)];
        eexists _, pre, rest; (split; [|exact H]); set_solver.
    - intros (marker & pre & rest & Hm & Hurl). split.
      + apply negb_true_iff, String.eqb_neq. intros Hempty. rewrite Hempty in Hurl.
        assert (Hlen : String.length "" = String.length (pre +:+ marker +:+ rest))
          by (by rewrite <- Hurl).
        rewrite !string_length_app in Hlen. cbn in Hlen.
        assert (String.length marker <> 0); [|lia].
        repeat (apply elem_of_cons in Hm as [->|Hm]; [done|]).
        by apply elem_of_nil in Hm.
      + repeat (apply elem_of_cons in Hm as [->|Hm]; [eauto 10|]).
        by apply elem_of_nil in Hm. }
  destruct (has_image (RedditPost.url post)).
  - split; [by left|]. split; [intros _; by apply Hiff|done].
  - split; [by right|]. split; [done|]. intros H%Hiff. done.
Qed.

(** * The feed client *)

Section Feed.

Variable R : Reddit.

(** A token that is cached is returned without any request. *)
Lemma getAccessToken_cached (api : RedditAPI) (c : Client) (token : string) :
  cached_token c = Some token ->
  getAccessToken R api c = (Ret token, jot LogCachedToken c).
Proof. unfold getAccessToken. by intros ->. Qed.

(** Without a cached token one request goes to the token endpoint, and
    only an ok response with a body that parses gives a token. *)
Lemma getAccessToken_fresh (api : RedditAPI) (w : World) (tok : option string)
      (tc lc : nat) (rq : list api_request) (nt : list note) :
  cached_token (mkClient w tok tc lc rq nt) = None ->
  getAccessToken R api (mkClient w tok tc lc rq nt)
  = match token_reply R tc with
    | ApiRejects =>
        (Throw FetchError,
         mkClient w tok (S tc) lc (rq ++ [token_rq R api]) (nt ++ [LogRequestingToken]))
    | ApiResolves resp json =>
        if ok resp
        then match json with
             | Some j =>
                 (Ret j,
                  mkClient w (Some j) (S tc) lc (rq ++ [token_rq R api])
                           (nt ++ [LogRequestingToken; LogTokenObtained]))
             | None =>
                 (Throw FetchError,
                  mkClient w tok (S tc) lc (rq ++ [token_rq R api])
                           (nt ++ [LogRequestingToken]))
             end
        else match body_text resp with
             | Some errorText =>
                 (Throw FeedError,
                  mkClient w tok (S tc) lc (rq ++ [token_rq R api])
                           (nt ++ [LogRequestingToken;
                                   ErrTokenStatus (status resp) (statusText resp);
                                   ErrTokenBody errorText]))
             | None =>
                 (Throw FetchError,
                  mkClient w tok (S tc) lc (rq ++ [token_rq R api])
                           (nt ++ [LogRequestingToken;
                                   ErrTokenStatus (status resp) (statusText resp)]))
             end
    end.
Proof.
  unfold getAccessToken. intros ->.
  unfold fetch_token, res_json, res_text, bindC, say, retC, throwC, jot,
    token_request, set_accessToken. cfields.
  destruct (token_reply R tc) as [|resp json]; cfields; [done|].
  cbn [fst snd]. destruct (ok resp); cbn [negb]; cfields.
  - destruct json; cfields; [|done]. by rewrite <- app_assoc.
  - destruct (body_text resp); cfields; by rewrite <- !app_assoc.
Qed.

End Feed.

(** X14. The token is cached in the instance: after a call of
    [getAccessToken] that returned a token that is not empty, the next call
    returns the same token and makes no request. *)
Theorem getAccessToken_caches (R : Reddit) (api : RedditAPI) (c c1 : Client)
        (token : string) :
  getAccessToken R api c = (Ret token, c1) -> token <> "" ->
  getAccessToken R api c1 = (Ret token, jot LogCachedToken c1) /\
  token_calls (snd (getAccessToken R api c1)) = token_calls c1 /\
  requests (snd (getAccessToken R api c1)) = requests c1.
Proof.
  intros Hcall Hne.
  assert (Hc1 : cached_token c1 = Some token).
  { destruct (cached_token c) as [t0|] eqn:Hc.
    - rewrite (getAccessToken_cached R _ _ _ Hc) in Hcall. by simplify_eq.
    - destruct c as [w tok tc lc rq nt].
      rewrite (getAccessToken_fresh R _ _ _ _ _ _ _ Hc) in Hcall.
      destruct (token_reply R tc) as [|resp [j|]]; [done| |].
      + destruct (ok resp); [|by destruct (body_text resp)].
        simplify_eq. unfold cached_token. cfields.
        by destruct (String.eqb_spec token "").
      + destruct (ok resp); [done|by destruct (body_text resp)]. }
  by rewrite (getAccessToken_cached R _ _ _ Hc1).
Qed.

Lemma getAccessToken_caches_witness :
  let c1 := snd (getAccessToken Demo.healthy Demo.api (Demo.client (Sample.world ∅))) in
  getAccessToken Demo.healthy Demo.api c1 = (Ret "tok", jot LogCachedToken c1).
Proof.
  intros c1.
  refine (proj1 (getAccessToken_caches Demo.healthy Demo.api
                   (Demo.client (Sample.world ∅)) c1 "tok" _ _)).
  - reflexivity.
  - discriminate.
Defined.

(** X15. An empty token is not cached: when the token endpoint issues the
    empty string, the call returns it, and the next call goes to the token
    endpoint again. *)
Theorem getAccessToken_empty_token_not_cached (R : Reddit) (api : RedditAPI)
        (c : Client) (resp : Response) :
  let r := getAccessToken R api c in
  cached_token c = None ->
  token_reply R (token_calls c) = ApiResolves resp (Some "") -> ok resp = true ->
  fst r = Ret "" /\ cached_token (snd r) = None /\
  token_calls (snd (getAccessToken R api (snd r))) = S (S (token_calls c)).
Proof.
  intros r Hc Ht Hok. subst r. destruct c as [w tok tc lc rq nt]. cfields in *.
  rewrite (getAccessToken_fresh R _ _ _ _ _ _ _ Hc), Ht, Hok. cbn [fst snd].
  split; [done|]. split; [done|].
  rewrite getAccessToken_fresh by done.
  destruct (token_reply R (S tc)) as [|resp' [j|]]; [done| |];
    (destruct (ok resp'); [done|by destruct (body_text resp')]).
Qed.

Lemma getAccessToken_empty_token_not_cached_witness :
  let r := getAccessToken Demo.empty_token Demo.api (Demo.client (Sample.world ∅)) in
  token_calls (snd (getAccessToken Demo.empty_token Demo.api (snd r))) = 2.
Proof.
  intros r.
  refine (proj2 (proj2 (getAccessToken_empty_token_not_cached Demo.empty_token Demo.api
                          (Demo.client (Sample.world ∅)) Demo.ok_response _ _ _)));
    reflexivity.
Defined.

(** Without a cached token, a token is returned only for an ok response
    whose body parses. *)
Lemma getAccessToken_Ret_inv (R : Reddit) (api : RedditAPI) (c : Client)
      (token : string) :
  cached_token c = None -> fst (getAccessToken R api c) = Ret token ->
  exists resp, token_reply R (token_calls c) = ApiResolves resp (Some token) /\
               ok resp = true.
Proof.
  intros Hc. destruct c as [w tok tc lc rq nt].
  rewrite (getAccessToken_fresh R _ _ _ _ _ _ _ Hc). cfields.
  destruct (token_reply R tc) as [|resp [j|]]; [done| |].
  - destruct (ok resp) eqn:Hok; [|by destruct (body_text resp)].
    intros Htok. cbn in Htok. simplify_eq. by exists resp.
  - destruct (ok resp); [done|by destruct (body_text resp)].
Qed.

(** X16. A failed token exchange is fatal for the call and caches nothing:
    a response that is not ok, a rejected request and a body that does not
    parse all make [getAccessToken] throw, and whenever it throws the cached
    token is what it was. *)
Theorem getAccessToken_failure_not_cached (R : Reddit) (api : RedditAPI) (c : Client) :
  let r := getAccessToken R api c in
  (forall e, fst r = Throw e -> accessToken (snd r) = accessToken c) /\
  (cached_token c = None ->
   (forall token, fst r = Ret token ->
                  exists resp, token_reply R (token_calls c) = ApiResolves resp (Some token)
                               /\ ok resp = true)).
Proof.
  intros r. subst r. destruct (cached_token c) as [t0|] eqn:Hc.
  - rewrite (getAccessToken_cached R _ _ _ Hc). by split.
  - destruct c as [w tok tc lc rq nt].
    rewrite (getAccessToken_fresh R _ _ _ _ _ _ _ Hc). cfields.
    destruct (token_reply R tc) as [|resp [j|]]; [by split| |].
    + destruct (ok resp) eqn:Hok; [|destruct (body_text resp); by split].
      split; [done|]. intros _ token Htok. cbn in Htok. simplify_eq. by exists resp.
    + destruct (ok resp); [by split|destruct (body_text resp); by split].
Qed.

Lemma getAccessToken_failure_not_cached_witness :
  accessToken (snd (getAccessToken Demo.locked_out Demo.api
                                   (Demo.client (Sample.world ∅))))
  = None.
Proof.
  exact (proj1 (getAccessToken_failure_not_cached Demo.locked_out Demo.api
                  (Demo.client (Sample.world ∅))) FeedError eq_refl).
Defined.

(** ** Fetching the posts *)

Section Posts.

Variable R : Reddit.

(** What a call of [getAccessToken] leaves alone, and the one request it
    makes when no token is cached. *)
Lemma getAccessToken_frame (api : RedditAPI) (c : Client) :
  let r := getAccessToken R api c in
  world (snd r) = world c /\ listing_calls (snd r) = listing_calls c /\
  token_calls (snd r)
  = match cached_token c with Some _ => token_calls c | None => S (token_calls c) end /\
  requests (snd r)
  = requests c ++ match cached_token c with Some _ => [] | None => [token_rq R api] end /\
  exists lines, notes (snd r) = notes c ++ lines.
Proof.
  intros r. subst r. destruct (cached_token c) as [t0|] eqn:Hc.
  - rewrite (getAccessToken_cached R _ _ _ Hc). unfold jot. cfields.
    cbn [snd]. cfields. rewrite app_nil_r. split_and!; eauto.
  - destruct c as [w tok tc lc rq nt].
    rewrite (getAccessToken_fresh R _ _ _ _ _ _ _ Hc). cfields.
    destruct (token_reply R tc) as [|resp [j|]];
      [|destruct (ok resp); [|destruct (body_text resp)]..];
      cbn [snd]; cfields; split_and!; eauto.
Qed.

(** [getPosts] step by step: the token, then the listing request, whose
    response must be ok and parse. *)
Lemma getPosts_eq (api : RedditAPI) (c : Client) :
  getPosts R api c
  = match getAccessToken R api c with
    | (Throw e, c1) => (Throw e, jot (ErrGetPosts e) c1)
    | (Ret token, c1) =>
        let c2 := listing_request (listing_rq token (listing_url api))
                                  (jot (LogFetchingUrl (listing_url api)) c1) in
        match listing_reply R (listing_calls c1) with
        | ApiRejects => (Throw FetchError, jot (ErrGetPosts FetchError) c2)
        | ApiResolves resp json =>
            if ok resp
            then match json with
                 | Some posts =>
                     (Ret posts, jot (LogFetchedFromReddit (length posts)) c2)
                 | None => (Throw FetchError, jot (ErrGetPosts FetchError) c2)
                 end
            else match body_text resp with
                 | Some errorText =>
                     (Throw FeedError,
                      jot (ErrGetPosts FeedError)
                          (jot (ErrUrlBody errorText)
                               (jot (ErrUrlStatus (listing_url api) (status resp)
                                                  (statusText resp)) c2)))
                 | None =>
                     (Throw FetchError,
                      jot (ErrGetPosts FetchError)
                          (jot (ErrUrlStatus (listing_url api) (status resp)
                                             (statusText resp)) c2))
                 end
        end
    end.
Proof.
  unfold getPosts, fetchWithAuth, try_catchC, bindC.
  destruct (getAccessToken R api c) as [[token|e] [w1 tok1 tc1 lc1 rq1 nt1]];
    [|reflexivity].
  unfold say, fetch_listing, res_json, res_text, retC, throwC, jot, listing_request.
  cfields.
  destruct (listing_reply R lc1) as [|resp json]; [reflexivity|].
  cbv [fst snd]. destruct (ok resp) eqn:Hok; cbn [negb].
  - destruct json; cbv [fst snd]; cfields; rewrite ?Hok; reflexivity.
  - destruct (body_text resp); cbv [fst snd]; cfields; rewrite ?Hok; reflexivity.
Qed.

End Posts.

(** X17. [getPosts] returns posts exactly when a token is at hand (cached,
    or issued by an ok response whose body parses) and the listing answers
    with an ok response whose body parses; the posts are then those of the
    listing. In every other case it throws. *)
Theorem getPosts_succeeds_iff (R : Reddit) (api : RedditAPI) (c : Client)
        (posts : list RedditPost.t) :
  fst (getPosts R api c) = Ret posts <->
  (exists token,
      cached_token c = Some token \/
      (cached_token c = None /\
       exists tresp, token_reply R (token_calls c) = ApiResolves tresp (Some token) /\
                     ok tresp = true)) /\
  (exists lresp, listing_reply R (listing_calls c) = ApiResolves lresp (Some posts) /\
                 ok lresp = true).
Proof.
  assert (Hlisting : forall token c1,
    listing_calls c1 = listing_calls c ->
    fst (let c2 := listing_request (listing_rq token (listing_url api))
                                   (jot (LogFetchingUrl (listing_url api)) c1) in
         match listing_reply R (listing_calls c1) with
         | ApiRejects => (Throw FetchError, jot (ErrGetPosts FetchError) c2)
         | ApiResolves resp json =>
             if ok resp
             then match json with
                  | Some posts =>
                      (Ret posts, jot (LogFetchedFromReddit (length posts)) c2)
                  | None => (Throw FetchError, jot (ErrGetPosts FetchError) c2)
                  end
             else match body_text resp with
                  | Some errorText =>
                      (Throw FeedError,
                       jot (ErrGetPosts FeedError)
                           (jot (ErrUrlBody errorText)
                                (jot (ErrUrlStatus (listing_url api) (status resp)
                                                   (statusText resp)) c2)))
                  | None =>
                      (Throw FetchError,
                       jot (ErrGetPosts FetchError)
                           (jot (ErrUrlStatus (listing_url api) (status resp)
                                              (statusText resp)) c2))
                  end
         end) = Ret posts
    <-> exists lresp, listing_reply R (listing_calls c) = ApiResolves lresp (Some posts)
                      /\ ok lresp = true).
  { intros token c1 ->. cbv zeta.
    destruct (listing_reply R (listing_calls c)) as [|resp json].
    - split; [done|]. by intros (? & ? & _).
    - destruct (ok resp) eqn:Hok.
      + destruct json as [l|]; cbn [fst].
        * split; [intros ?; simplify_eq; by exists resp|].
          intros (? & ? & _). by simplify_eq.
        * split; [done|]. intros (? & ? & _). by simplify_eq.
      + split; [by destruct (body_text resp)|].
        intros (? & ? & ?). simplify_eq. congruence. }
  cbv zeta in Hlisting. rewrite getPosts_eq.
  destruct (cached_token c) as [t0|] eqn:Hc.
  - rewrite (getAccessToken_cached R _ _ _ Hc). cbv beta iota zeta.
    rewrite (Hlisting t0 (jot LogCachedToken c) eq_refl).
    split; [intros H; split; eauto|by intros [_ ?]].
  - pose proof (getAccessToken_frame R api c) as (_ & Hlc & _).
    pose proof (getAccessToken_Ret_inv R api c) as Hret.
    destruct (getAccessToken R api c) as [[token|e] c1] eqn:Hcall; cbn [fst snd] in *.
    + cbv beta iota zeta. rewrite (Hlisting token c1 Hlc).
      destruct (Hret token Hc eq_refl) as (tresp & Ht & Hok).
      split; [intros H; split; [|done]; exists token; right; eauto|by intros [_ ?]].
    + split; [done|].
      intros [(token & [?|(_ & tresp & Ht & Hok)]) _]; [done|].
      destruct c as [w tok tc lc rq nt]. cfields in *.
      by rewrite (getAccessToken_fresh R _ _ _ _ _ _ _ Hc), Ht, Hok in Hcall.
Qed.

(** The requests and the log of [getPosts], whatever the feed API does. *)
Lemma getPosts_effects (R : Reddit) (api : RedditAPI) (c : Client) :
  let r := getPosts R api c in
  world (snd r) = world c /\
  token_calls (snd r)
  = match cached_token c with Some _ => token_calls c | None => S (token_calls c) end /\
  listing_calls (snd r) <= S (listing_calls c) /\
  (forall posts, fst r = Ret posts -> listing_calls (snd r) = S (listing_calls c)) /\
  (forall e, fst (getAccessToken R api c) = Throw e ->
             fst r = Throw e /\ listing_calls (snd r) = listing_calls c) /\
  (forall e, fst r = Throw e -> last (notes (snd r)) = Some (ErrGetPosts e)).
Proof.
  intros r. subst r. rewrite getPosts_eq.
  pose proof (getAccessToken_frame R api c) as (Hw & Hlc & Htc & _).
  destruct (getAccessToken R api c) as [[token|e] [w1 tok1 tc1 lc1 rq1 nt1]].
  - cbn [fst snd] in *. cfields in *. subst w1 lc1. rewrite <- Htc.
    unfold jot, listing_request. cfields. cbv zeta.
    destruct (listing_reply R (listing_calls c)) as [|resp json];
      [|destruct (ok resp); [destruct json|destruct (body_text resp)]];
      cbn [fst snd]; cfields;
      (split_and!; [done|done|lia| | |]);
      try (intros ? ?; by simplify_eq);
      try (intros ? ?; simplify_eq; by rewrite last_snoc).
  - cbn [fst snd] in *. cfields in *. subst w1 lc1. rewrite <- Htc.
    unfold jot. cfields.
    split_and!; [done|done|lia|done| |].
    + intros ? ?. by simplify_eq.
    + intros ? ?. simplify_eq. by rewrite last_snoc.
Qed.

(** X18. Whatever the feed API does, [getPosts] leaves the world alone and
    makes at most one request to each endpoint: a token request exactly when
    no token is cached, and a listing request only once a token is at hand
    (none when the token exchange failed, one whenever posts are returned).
    When it throws, the error is the last thing it logs. *)
Theorem getPosts_requests (R : Reddit) (api : RedditAPI) (c : Client) :
  let r := getPosts R api c in
  world (snd r) = world c /\
  token_calls (snd r)
  = match cached_token c with Some _ => token_calls c | None => S (token_calls c) end /\
  listing_calls (snd r) <= S (listing_calls c) /\
  (forall posts, fst r = Ret posts -> listing_calls (snd r) = S (listing_calls c)) /\
  (forall e, fst (getAccessToken R api c) = Throw e ->
             fst r = Throw e /\ listing_calls (snd r) = listing_calls c) /\
  (forall e, fst r = Throw e -> last (notes (snd r)) = Some (ErrGetPosts e)).
Proof. apply getPosts_effects. Qed.

Lemma getPosts_requests_witness :
  let r := getPosts Demo.locked_out Demo.api (Demo.client (Sample.world ∅)) in
  fst r = Throw FeedError /\ listing_calls (snd r) = 0.
Proof.
  exact (proj1 (proj2 (proj2 (proj2 (proj2
    (getPosts_requests Demo.locked_out Demo.api (Demo.client (Sample.world ∅)))))))
    FeedError eq_refl).
Defined.

(** A healthy feed gives the posts of the listing. *)
Lemma getPosts_healthy (R : Reddit) (api : RedditAPI) (c : Client)
      (tresp lresp : Response) (token : string) (posts : list RedditPost.t) :
  cached_token c = None ->
  token_reply R (token_calls c) = ApiResolves tresp (Some token) -> ok tresp = true ->
  listing_reply R (listing_calls c) = ApiResolves lresp (Some posts) ->
  ok lresp = true ->
  fst (getPosts R api c) = Ret posts.
Proof.
  intros Hc Ht Hokt Hl Hokl. destruct c as [w tok tc lc rq nt].
  cfields in *. rewrite getPosts_eq, (getAccessToken_fresh R _ _ _ _ _ _ _ Hc), Ht, Hokt.
  cbv zeta. unfold jot, listing_request. cfields. by rewrite Hl, Hokl.
Qed.

(** X19. With no cached token and a healthy feed, [getPosts] returns the
    posts of the listing after exactly two requests: the token request, then
    the listing request, which carries the token just issued as its bearer
    and asks for [limit] posts; the token is cached afterwards. *)
Theorem getPosts_sends (R : Reddit) (api : RedditAPI) (c : Client)
        (tresp lresp : Response) (token : string) (posts : list RedditPost.t) :
  let r := getPosts R api c in
  cached_token c = None ->
  token_reply R (token_calls c) = ApiResolves tresp (Some token) -> ok tresp = true ->
  listing_reply R (listing_calls c) = ApiResolves lresp (Some posts) ->
  ok lresp = true ->
  fst r = Ret posts /\
  requests (snd r)
  = requests c ++ [token_rq R api; listing_rq token (listing_url api)] /\
  rq_authorization (listing_rq token (listing_url api)) = "Bearer " +:+ token /\
  rq_url (listing_rq token (listing_url api))
  = "https://oauth.reddit.com/r/guinness/new?limit=" +:+ pretty (limit api) /\
  accessToken (snd r) = Some token.
Proof.
  intros r Hc Ht Hokt Hl Hokl. subst r. destruct c as [w tok tc lc rq nt].
  cfields in *. rewrite getPosts_eq, (getAccessToken_fresh R _ _ _ _ _ _ _ Hc), Ht, Hokt.
  cbv zeta. unfold jot, listing_request. cfields. rewrite Hl, Hokl.
  cbn [fst snd]. cfields. rewrite <- app_assoc. done.
Qed.

Lemma getPosts_sends_witness :
  fst (getPosts Demo.healthy Demo.api (Demo.client (Sample.world ∅)))
  = Ret [Sample.p1; Sample.p2].
Proof.
  exact (proj1 (getPosts_sends Demo.healthy Demo.api (Demo.client (Sample.world ∅))
                  Demo.ok_response Demo.ok_response "tok" [Sample.p1; Sample.p2]
                  eq_refl eq_refl eq_refl eq_refl eq_refl)).
Defined.

(** X20. The handler with its feed client never raises. Every invocation
    starts from a fresh client, so it makes exactly one token request,
    whatever token an earlier invocation left behind. When fetching the
    posts fails, the invocation ends there: the store, the clock and the
    webhook are not touched and no store request is made. *)
Theorem scheduled_handler_never_raises (R : Reddit) (O : Outside) (cron : string)
        (env : Env) (c : Client) :
  let r := scheduled_handler R O cron env c in
  fst r = Ret tt /\
  token_calls (snd r) = S (token_calls c) /\
  (forall e,
      fst (getPosts R (new_RedditAPI env) (set_accessToken None c)) = Throw e ->
      world (snd r) = print (ErrScheduled e) (print (LogCron cron) (world c))).
Proof.
  intros r. subst r. unfold scheduled_handler.
  pose proof (getPosts_effects R (new_RedditAPI env) (set_accessToken None c))
    as (Hw & Htc & _).
  destruct (getPosts R (new_RedditAPI env) (set_accessToken None c))
    as [fetched c1]. cbn [fst snd] in *.
  unfold lift. rewrite Hw.
  change (world (set_accessToken None c)) with (world c) in *.
  change (cached_token (set_accessToken None c)) with (@None string) in Htc.
  change (token_calls (set_accessToken None c)) with (token_calls c) in Htc.
  pose proof (scheduled_total O cron env fetched (world c)) as (Hret & Hfail).
  destruct (scheduled O cron env fetched (world c)) as [res w'].
  cbn [fst snd] in *. unfold set_world. cfields. split_and!; [done|done|].
  intros e ->. by apply Hfail.
Qed.

Lemma scheduled_handler_never_raises_witness :
  world (snd (scheduled_handler Demo.locked_out Sample.quiet "* * * * *" Sample.env
                                (Demo.client (Sample.world Sample.two_old))))
  = print (ErrScheduled FeedError)
          (print (LogCron "* * * * *") (Sample.world Sample.two_old)).
Proof.
  exact (proj2 (proj2 (scheduled_handler_never_raises Demo.locked_out Sample.quiet
                         "* * * * *" Sample.env
                         (Demo.client (Sample.world Sample.two_old))))
           FeedError eq_refl).
Defined.

(** X21. With a healthy feed the handler is [scheduled] run on the posts of
    the listing: the world it leaves is the one [scheduled] leaves when
    given those posts. *)
Theorem scheduled_handler_healthy (R : Reddit) (O : Outside) (cron : string)
        (env : Env) (c : Client) (tresp lresp : Response) (token : string)
        (posts : list RedditPost.t) :
  token_reply R (token_calls c) = ApiResolves tresp (Some token) -> ok tresp = true ->
  listing_reply R (listing_calls c) = ApiResolves lresp (Some posts) ->
  ok lresp = true ->
  world (snd (scheduled_handler R O cron env c))
  = snd (scheduled O cron env (Ret posts) (world c)).
Proof.
  intros Ht Hokt Hl Hokl. unfold scheduled_handler.
  pose proof (getPosts_effects R (new_RedditAPI env) (set_accessToken None c))
    as (Hw & _).
  pose proof (getPosts_healthy R (new_RedditAPI env) (set_accessToken None c)
                tresp lresp token posts eq_refl Ht Hokt Hl Hokl) as Hret.
  destruct (getPosts R (new_RedditAPI env) (set_accessToken None c))
    as [fetched c1]. cbn [fst snd] in *. subst fetched.
  unfold lift. rewrite Hw.
  change (world (set_accessToken None c)) with (world c).
  by destruct (scheduled O cron env (Ret posts) (world c)).
Qed.

Lemma scheduled_handler_healthy_witness :
  world (snd (scheduled_handler Demo.healthy Sample.quiet "* * * * *" Sample.env
                                (Demo.client (Sample.world Sample.recent))))
  = snd (scheduled Sample.quiet "* * * * *" Sample.env (Ret [Sample.p1; Sample.p2])
                   (Sample.world Sample.recent)).
Proof.
  exact (scheduled_handler_healthy Demo.healthy Sample.quiet "* * * * *" Sample.env
           (Demo.client (Sample.world Sample.recent))
           Demo.ok_response Demo.ok_response "tok" [Sample.p1; Sample.p2]
           eq_refl eq_refl eq_refl eq_refl).
Defined.
